(** * DDoS protection engine (main.py): anomaly detection, rate limiting,
      verification and mitigation decisions.

    Shallow embedding of the decision core of [main.py]:
    - the Redis keyspace (plain strings, counters and RedisTimeSeries series)
      is a [gmap string entry]; every Redis command is a function on it that
      raises [ConnectionError] when the server is unreachable and
      [ResponseError] when the server rejects the command;
    - the coroutines are functions of a state and exception monad [M]: the
      effects of the commands run before an exception stay in the store;
    - the HTTP calls to the threat intelligence service and to the
      Cloudflare firewall API are oracles of an environment [Env]; each call
      is appended to a trace of outbound calls;
    - Python floats, and the values of the Redis series, are IEEE binary64
      numbers ([float], with the rounding of each operation); the two float
      routines of the interpreter whose results depend on its version or on
      the C library, [sum] and [pow], are parameters of [Env]; Python ints
      are [Z]. The threat score of the intelligence API, only ever compared
      with the integer 70, is a real number. *)

From Stdlib Require Import ZArith Reals Lra String Ascii List Bool Sorting.Sorted Permutation.
From Stdlib Require Import Floats Uint63.
From stdpp Require Import gmap strings.

Local Open Scope string_scope.
Local Open Scope Z_scope.
Set Warnings "-inexact-float".

(** ** Configuration constants (main.py, lines 41-48) *)

Definition WINDOW_SIZE : Z := 60.
Definition ZSCORE_THRESHOLD : float := 3.0.
Definition MIN_DATA_POINTS : nat := 30.
Definition RATE_LIMIT_WINDOW : Z := 60.
Definition RATE_LIMIT_MAX_REQUESTS : Z := 1000.

(** ** Models (pydantic classes, lines 61-93) *)

Record AnomalyDetectionResult := {
  timestamp : float;
  metric : string;
  value : float;
  zscore : float;
  is_anomaly : bool;
  threshold : float
}.

Record VerificationRequest := {
  clientIP : string;
  userAgent : string;
  cookies : option (list (string * string));
  headers : option (list (string * string))
}.

Record MitigationAction := {
  action_type : string;
  target : string;
  duration : Z;
  reason : string
}.

Record ThreatIntelResult := {
  ip : string;
  risk_score : R;
  categories : list string;
  is_proxy : bool;
  is_tor : bool;
  is_vpn : bool;
  country_code : string;
  asn : Z;
  asn_name : string
}.

(** ** The Redis keyspace *)

(** What TS.ADD does with a sample whose timestamp the series already has:
    [Block] (the server's default, taken by TS.CREATE and by a TS.ADD that
    creates the key without naming a policy) rejects it with an error;
    [Sum] adds the new value to the stored one. *)
Inductive dup_policy := Block | Sum.

(** A Redis value: a string (a counter written by INCR is kept as the
    integer it encodes) or a RedisTimeSeries series: its duplicate policy
    and its (timestamp in ms, value) samples in increasing timestamp order.
    The 24 h retention of the series is not modelled: it only trims samples
    a day older than the newest one, and main.py adds samples at the current
    time and reads at most an hour back. *)
Inductive rval :=
| RText (s : string)
| RInt (n : Z)
| RSeries (dup : dup_policy) (pts : list (Z * float)).

(** A key holds a value and an optional expiry (seconds, as set by EX or
    EXPIRE). Expired keys are gone: the map only holds live keys. *)
Record entry := Entry { e_val : rval; e_ttl : option Z }.

(** The exceptions that leave the code. [ComplexResult] is not a Python
    exception: it ends an evaluation that produced a complex number (see
    [py_sqrt]), whose arithmetic the model does not follow. *)
Inductive exn := ConnectionError | ResponseError | ValueError | OverflowError | ComplexResult.

(** Outbound HTTP calls. *)
Inductive call :=
| ThreatLookup (ip : string)
| FirewallBlock (ip : string) (duration : Z)
| FirewallChallenge (target : string).

Record St := mkSt {
  st_keys : gmap string entry;
  st_up : bool;            (* the Redis server is reachable *)
  st_calls : list call     (* outbound calls made so far, oldest first *)
}.

Definition set_keys (m : gmap string entry) (s : St) : St :=
  mkSt m (st_up s) (st_calls s).
Definition log_call (c : call) (s : St) : St :=
  mkSt (st_keys s) (st_up s) (st_calls s ++ [c])%list.

(** Behaviour of the outside world during one request: the clock, the
    answer of the threat intelligence API ([None] when [check_threat_intel]
    catches a timeout, a non-200 status or a malformed body) and whether the
    Cloudflare API accepts a block or challenge rule (status 200/201); and
    two routines of the interpreter: the builtin [sum] on a list of floats
    (CPython 3.11 adds from left to right, 3.12 compensates the rounding
    errors: [sum_left], [sum_neumaier]) and the C library's [pow], which
    CPython's [x ** y] calls (its last bit differs between libraries). *)
Record Env := {
  now_ms : Z;                                  (* int(time.time() * 1000) *)
  threat_api : string -> option ThreatIntelResult;
  cf_block_ok : string -> Z -> bool;
  cf_challenge_ok : string -> bool;
  float_sum : list float -> float;
  libm_pow : float -> float -> float
}.

(** ** State and exception monad *)

Definition M (A : Type) : Type := St -> (exn + A) * St.

Definition ret {A} (a : A) : M A := fun s => (inr a, s).
Definition bind {A B} (m : M A) (k : A -> M B) : M B :=
  fun s => match m s with
           | (inl e, s') => (inl e, s')
           | (inr a, s') => k a s'
           end.
Definition raise {A} (e : exn) : M A := fun s => (inl e, s).

(** A computation of the interpreter that may raise, with no effect on the
    store. *)
Definition lift {A} (r : exn + A) : M A := fun s => (r, s).

Notation "'let*' x ':=' m 'in' k" := (bind m (fun x => k))
  (at level 200, x name, m at level 100, k at level 200).
Notation "m ;; k" := (bind m (fun _ => k)) (at level 100, right associativity).

(** [try: m except ResponseError: h] *)
Definition catch_response {A} (m : M A) (h : M A) : M A :=
  fun s => match m s with
           | (inl ResponseError, s') => h s'
           | r => r
           end.

(** A command sent to the Redis server. *)
Definition redis {A} (f : gmap string entry -> (exn + A) * gmap string entry)
  : M A :=
  fun s => if st_up s
           then let (r, m) := f (st_keys s) in (r, set_keys m s)
           else (inl ConnectionError, s).

(** ** Python floats *)

(** [float(n)] for an int with |n| < 2^63: the nearest double, ties to even,
    as CPython rounds. *)
Definition float_of_Z (n : Z) : float :=
  if n <? 0 then (- PrimFloat.of_uint63 (Uint63.of_Z (- n)))%float
  else PrimFloat.of_uint63 (Uint63.of_Z n).

Definition float_of_nat (n : nat) : float := float_of_Z (Z.of_nat n).

(** [a / b] on two ints of magnitude at most 2^53: both convert exactly and
    one rounded division gives the correctly rounded quotient, as CPython's
    int true division does. *)
Definition int_truediv (a b : Z) : float := (float_of_Z a / float_of_Z b)%float.

(** CPython 3.11's [sum] of floats: 0 + x0 + x1 + ..., rounding each
    addition. *)
Definition sum_left (xs : list float) : float := fold_left PrimFloat.add xs 0%float.



(** The part of CPython's [float_pow] (Objects/floatobject.c) that both
    exponents of main.py reach, for a finite positive base: the base 1.0
    gives 1.0; any other goes to the C library's [pow], and an infinite
    result of a finite base is reported as OverflowError. *)
Definition pow_finite (pow : float -> float -> float) (a y : float) : exn + float :=
  if (a =? 1)%float then inr 1%float
  else let r := pow a y in
       if PrimFloat.is_infinity r then inl OverflowError else inr r.

(** [v ** 2] on a float: a NaN base gives itself, an infinite base +inf, a
    zero base 0.0; a negative base is made positive (the exponent is
    even). *)
Definition py_square (pow : float -> float -> float) (v : float) : exn + float :=
  if PrimFloat.is_nan v then inr v
  else if PrimFloat.is_infinity v then inr (PrimFloat.abs v)
  else if (v =? 0)%float then inr 0%float
  else pow_finite pow (PrimFloat.abs v) 2.

(** [v ** 0.5] on a float, with the same special cases; a negative finite
    base gives a complex number in Python, [None] here. *)
Definition py_sqrt (pow : float -> float -> float) (v : float) : option (exn + float) :=
  if PrimFloat.is_nan v then Some (inr v)
  else if PrimFloat.is_infinity v then Some (inr (PrimFloat.abs v))
  else if (v =? 0)%float then Some (inr 0%float)
  else if (v <? 0)%float then None
  else Some (pow_finite pow v 0.5).

(** ** Redis commands *)

(** GET: strings only; a series is the wrong type. *)
Definition kv_get (k : string) (m : gmap string entry)
  : (exn + option rval) * gmap string entry :=
  match m !! k with
  | None => (inr None, m)
  | Some (Entry (RSeries _ _) _) => (inl ResponseError, m)
  | Some (Entry v _) => (inr (Some v), m)
  end.

(** SET k v EX ex: a non-positive expiry is rejected by the server. *)
Definition kv_set (k v : string) (ex : Z) (m : gmap string entry)
  : (exn + unit) * gmap string entry :=
  if ex <=? 0 then (inl ResponseError, m)
  else (inr tt, <[k := Entry (RText v) (Some ex)]> m).

(** INCR: a missing key counts from 0 and has no expiry; the expiry of an
    existing counter is kept. *)
Definition kv_incr (k : string) (m : gmap string entry)
  : (exn + Z) * gmap string entry :=
  match m !! k with
  | None => (inr 1, <[k := Entry (RInt 1) None]> m)
  | Some (Entry (RInt n) t) => (inr (n + 1), <[k := Entry (RInt (n + 1)) t]> m)
  | Some _ => (inl ResponseError, m)
  end.

(** EXPIRE k t (t > 0): sets the expiry of an existing key. *)
Definition kv_expire (k : string) (t : Z) (m : gmap string entry)
  : gmap string entry :=
  match m !! k with
  | None => m
  | Some (Entry v _) => <[k := Entry v (Some t)]> m
  end.

(** TS.RANGE k from to: samples with from <= t <= to; a missing key or a key
    that is not a series is an error. The server sends each value in a form
    that redis-py parses back to the same double. *)
Definition ts_window (from to : Z) (pts : list (Z * float)) : list (Z * float) :=
  List.filter (fun p => (from <=? fst p) && (fst p <=? to)) pts.

Definition ts_range_cmd (k : string) (from to : Z) (m : gmap string entry)
  : (exn + list (Z * float)) * gmap string entry :=
  match m !! k with
  | Some (Entry (RSeries _ pts) _) => (inr (ts_window from to pts), m)
  | _ => (inl ResponseError, m)
  end.

(** Insertion of the sample ([t], [v]) under the series' duplicate policy;
    [None] when the policy rejects a timestamp already present. *)
Fixpoint ts_upsert (dp : dup_policy) (t : Z) (v : float) (pts : list (Z * float))
  : option (list (Z * float)) :=
  match pts with
  | [] => Some [(t, v)]
  | (t', v') :: rest =>
      if t <? t' then Some ((t, v) :: pts)
      else if t =? t' then
        match dp with
        | Block => None
        | Sum => Some ((t, (v' + v)%float) :: rest)
        end
      else option_map (cons (t', v')) (ts_upsert dp t v rest)
  end.

(** TS.ADD k t v [DUPLICATE_POLICY p]: the server refuses a NaN or infinite
    value; a missing key is created with the policy of the call ([create]:
    [Block] when the call names none); an existing series keeps its own
    policy. redis-py sends its [duplicate_policy] argument as
    DUPLICATE_POLICY, which only applies when the command creates the
    key. *)
Definition ts_add_cmd (create : dup_policy) (k : string) (t : Z) (v : float)
  (m : gmap string entry) : (exn + unit) * gmap string entry :=
  if negb (PrimFloat.is_finite v) then (inl ResponseError, m) else
  match m !! k with
  | None => (inr tt, <[k := Entry (RSeries create [(t, v)]) None]> m)
  | Some (Entry (RSeries dp pts) ttl) =>
      match ts_upsert dp t v pts with
      | Some pts' => (inr tt, <[k := Entry (RSeries dp pts') ttl]> m)
      | None => (inl ResponseError, m)
      end
  | Some _ => (inl ResponseError, m)
  end.

(** The SCAN cursor loop over [pattern*], run to exhaustion: the keys of the
    keyspace that start with [pattern]. *)
Definition scan_cmd (pattern : string) (m : gmap string entry)
  : (exn + list string) * gmap string entry :=
  (inr (List.filter (fun k => String.prefix pattern k) (map fst (map_to_list m))), m).

Definition r_get k : M (option rval) := redis (kv_get k).
Definition r_set k v ex : M unit := redis (kv_set k v ex).
Definition ts_range k from to : M (list (Z * float)) := redis (ts_range_cmd k from to).
(** TS.ADD k t v, with no duplicate policy. *)
Definition ts_add k t v : M unit := redis (ts_add_cmd Block k t v).
Definition scan_iter pattern : M (list string) := redis (scan_cmd pattern).

(** [pipe.incr(k); pipe.expire(k, t); pipe.execute()]: one MULTI/EXEC
    transaction; EXPIRE runs even when INCR fails, and [execute] then raises
    the INCR error. *)
Definition pipe_incr_expire (k : string) (t : Z) : M unit :=
  redis (fun m =>
    let (r, m1) := kv_incr k m in
    let m2 := kv_expire k t m1 in
    match r with
    | inl e => (inl e, m2)
    | inr _ => (inr tt, m2)
    end).

(** ** Python helpers *)

(** [needle in hay] for strings. *)
Fixpoint contains (needle hay : string) : bool :=
  String.prefix needle hay ||
  match hay with
  | EmptyString => false
  | String _ rest => contains needle rest
  end.

(** [s.split(c)] *)
Fixpoint split_on (c : ascii) (s : string) : list string :=
  match s with
  | EmptyString => [""]
  | String a rest =>
      let segs := split_on c rest in
      if Ascii.eqb a c then "" :: segs
      else match segs with
           | x :: xs => String a x :: xs
           | [] => [String a ""]
           end
  end.

(** [key.split(":")[-1]] *)
Definition ip_of_key (key : string) : string := List.last (split_on ":" key) "".

(** Truthiness of the value returned by GET ([None] or a string). *)
Definition truthy (v : option rval) : bool :=
  match v with
  | None => false
  | Some (RText s) => negb (String.eqb s "")
  | Some _ => true
  end.

(** [risk_score > 70] *)
Definition Rgtb (x y : R) : bool := if Rgt_dec x y then true else false.

(** [data[-1]] *)
Fixpoint last_opt {A} (l : list A) : option A :=
  match l with
  | [] => None
  | [x] => Some x
  | _ :: rest => last_opt rest
  end.

Section Engine.

Variable E : Env.

(** ** detect_anomalies (lines 217-264) *)

(** [current_value = data[-1][1] if data else 0] *)
Definition current_value_of (data : list (Z * float)) : float :=
  match last_opt data with Some p => snd p | None => 0%float end.

(** The items [(x - avg) ** 2] of the generator summed on line 242, in
    order; the first that raises ends the sum. *)
Fixpoint squares (avg : float) (values : list float) : exn + list float :=
  match values with
  | [] => inr []
  | x :: rest =>
      match py_square (libm_pow E) (x - avg)%float with
      | inl e => inl e
      | inr y => match squares avg rest with
                 | inl e => inl e
                 | inr ys => inr (y :: ys)
                 end
      end
  end.

(** [zscore = 0 if std_dev == 0 else (current_value - avg) / std_dev]; the
    int 0 becomes 0.0 in the pydantic model. *)
Definition zscore_of (current_value avg std_dev : float) : float :=
  if (std_dev =? 0)%float then 0%float else ((current_value - avg) / std_dev)%float.

(** Lines 236-264: statistics over the fetched window, persisted mean and
    standard deviation, and the result. A negative variance would make
    [std_dev] complex; the evaluation then ends with [ComplexResult] (the
    sums of non-negative squares of CPython's [sum] are never negative). *)
Definition detect_compute (metric : string) (current_time : Z)
  (data : list (Z * float)) : M (option AnomalyDetectionResult) :=
  let current_value := current_value_of data in
  let values := map snd data in
  let avg := (float_sum E values / float_of_nat (length values))%float in
  let* sq := lift (squares avg values) in
  match py_sqrt (libm_pow E) (float_sum E sq / float_of_nat (length values))%float with
  | None => raise ComplexResult
  | Some r =>
      let* std_dev := lift r in
      let zscore := zscore_of current_value avg std_dev in
      let is_anomaly := (ZSCORE_THRESHOLD <? PrimFloat.abs zscore)%float in
      ts_add (metric ++ ":avg") current_time avg ;;
      ts_add (metric ++ ":std") current_time std_dev ;;
      ret (Some {| timestamp := int_truediv current_time 1000;
                   metric := metric;
                   value := current_value;
                   zscore := zscore;
                   is_anomaly := is_anomaly;
                   threshold := ZSCORE_THRESHOLD |})
  end.

Definition detect_anomalies (metric : string) : M (option AnomalyDetectionResult) :=
  let current_time := now_ms E in
  let start_time := current_time - WINDOW_SIZE * 1000 in
  let* data := catch_response
                 (let* d := ts_range metric start_time current_time in ret (Some d))
                 (ret None) in
  match data with
  | None => ret None
  | Some data =>
      if match data with [] => true | _ => false end
         || (length data <? MIN_DATA_POINTS)%nat
      then ret None
      else detect_compute metric current_time data
  end.

(** ** check_rate_limit (lines 268-286) *)

(** The two awaits of [check_rate_limit]: the GET of the counter ... *)
Definition rl_read (ip : string) : M Z :=
  let key := "ratelimit:" ++ ip in
  let* count := r_get key in
  match count with
  | Some (RInt n) => ret n
  | Some (RText s) => if String.eqb s "" then ret 0 else raise ValueError
  | _ => ret 0
  end.
(** ... and the decision on the count read, with the INCR/EXPIRE pipeline. *)
Definition rl_commit (ip : string) (count : Z) : M (bool * Z) :=
  let key := "ratelimit:" ++ ip in
  if count >=? RATE_LIMIT_MAX_REQUESTS then ret (true, count)
  else pipe_incr_expire key RATE_LIMIT_WINDOW ;; ret (false, count + 1).

Definition check_rate_limit (ip : string) : M (bool * Z) :=
  let* count := rl_read ip in rl_commit ip count.

(** [n] requests of one client handled concurrently by the event loop: each
    coroutine runs up to its first await (the GET of the counter) before any
    of them resumes, then they resume in arrival order. *)
Fixpoint rl_read_all (ip : string) (n : nat) : M (list Z) :=
  match n with
  | O => ret []
  | S k => let* c := rl_read ip in
           let* cs := rl_read_all ip k in ret (c :: cs)
  end.

Fixpoint rl_commit_all (ip : string) (counts : list Z) : M (list (bool * Z)) :=
  match counts with
  | [] => ret []
  | c :: cs => let* r := rl_commit ip c in
               let* rs := rl_commit_all ip cs in ret (r :: rs)
  end.

Definition concurrent_check_rate_limit (ip : string) (n : nat) : M (list (bool * Z)) :=
  let* counts := rl_read_all ip n in rl_commit_all ip counts.

(** ** Outbound calls (lines 290-341) *)

Definition check_threat_intel (ip : string) : M (option ThreatIntelResult) :=
  fun s => (inr (threat_api E ip), log_call (ThreatLookup ip) s).

Definition add_to_cloudflare_blocklist (ip : string) (duration : Z) : M bool :=
  fun s => (inr (cf_block_ok E ip duration), log_call (FirewallBlock ip duration) s).

(** The challenge rule POST of [add_mitigation] (lines 616-634). *)
Definition add_challenge_rule (target : string) : M bool :=
  fun s => (inr (cf_challenge_ok E target), log_call (FirewallChallenge target) s).

(** [try: m except Exception: h] *)
Definition catch_all {A} (m : M A) (h : M A) : M A :=
  fun s => match m s with
           | (inl _, s') => h s'
           | r => r
           end.

(** ** verify_client (lines 345-380) *)

Definition verify_client (request : VerificationRequest) : M (bool * string) :=
  let ip := clientIP request in
  let* is_verified := r_get ("verified:" ++ ip) in
  if truthy is_verified then ret (true, "cached") else
  let* limited := check_rate_limit ip in
  let (is_limited, count) := limited in
  if is_limited then ret (false, "rate_limited") else
  let* threat_intel := check_threat_intel ip in
  if match threat_intel with
     | Some t => Rgtb (risk_score t) 70
     | None => false
     end
  then
    add_to_cloudflare_blocklist ip 3600 ;;
    r_set ("blocked:" ++ ip) "threat_intel" 3600 ;;
    ret (false, "threat_intel_blocked")
  else if count >? 100 then ret (false, "captcha_required")
  else if count >? 50 then ret (false, "js_challenge")
  else r_set ("verified:" ++ ip) "cookie" 3600 ;; ret (true, "cookie").

(** ** get_anomalies (lines 385-449) *)

(** [if r and r.is_anomaly: anomalies.append(r)] *)
Definition collect (r : option AnomalyDetectionResult)
  (anomalies : list AnomalyDetectionResult) : list AnomalyDetectionResult :=
  match r with
  | Some a => if is_anomaly a then (anomalies ++ [a])%list else anomalies
  | None => anomalies
  end.

(** [":avg" not in key and ":std" not in key] *)
Definition is_base_key (key : string) : bool :=
  negb (contains ":avg" key) && negb (contains ":std" key).

Fixpoint path_loop (keys : list string) (anomalies : list AnomalyDetectionResult)
  (top_paths : list (string * float))
  : M (list AnomalyDetectionResult * list (string * float)) :=
  match keys with
  | [] => ret (anomalies, top_paths)
  | key :: rest =>
      if is_base_key key then
        let* path_anomaly := detect_anomalies key in
        match path_anomaly with
        | Some a =>
            if is_anomaly a
            then path_loop rest (anomalies ++ [a]) (top_paths ++ [(key, value a)])
            else path_loop rest anomalies top_paths
        | None => path_loop rest anomalies top_paths
        end
      else path_loop rest anomalies top_paths
  end.

Fixpoint ip_loop (keys : list string) (anomalies : list AnomalyDetectionResult)
  (top_ips : list (string * float))
  : M (list AnomalyDetectionResult * list (string * float)) :=
  match keys with
  | [] => ret (anomalies, top_ips)
  | key :: rest =>
      if is_base_key key then
        let* ip_anomaly := detect_anomalies key in
        match ip_anomaly with
        | Some a =>
            if is_anomaly a
            then ip_loop rest (anomalies ++ [a]) (top_ips ++ [(ip_of_key key, value a)])
            else ip_loop rest anomalies top_ips
        | None => ip_loop rest anomalies top_ips
        end
      else ip_loop rest anomalies top_ips
  end.

(** Lines 443-447: auto-block of the anomalous IPs. *)
Fixpoint auto_block (top_ips : list (string * float)) : M unit :=
  match top_ips with
  | [] => ret tt
  | (ip, v) :: rest =>
      (if (100 <? v)%float then
         add_to_cloudflare_blocklist ip 3600 ;;
         r_set ("blocked:" ++ ip) "auto_anomaly" 3600
       else ret tt) ;;
      auto_block rest
  end.

(** Lines 388-440: the global metrics, then the path and IP keys. *)
Definition sweep_collect
  : M (list AnomalyDetectionResult * list (string * float)) :=
  let* total_rps_anomaly := detect_anomalies "ddos:total_rps" in
  let anomalies := collect total_rps_anomaly [] in
  let* response_time_anomaly := detect_anomalies "ddos:response_time" in
  let anomalies := collect response_time_anomaly anomalies in
  let* error_rate_anomaly := detect_anomalies "ddos:error_rate" in
  let anomalies := collect error_rate_anomaly anomalies in
  let* path_keys := scan_iter "ddos:path:" in
  let* paths := path_loop path_keys anomalies [] in
  let anomalies := fst paths in
  let* ip_keys := scan_iter "ddos:ip:" in
  ip_loop ip_keys anomalies [].

Definition get_anomalies : M (list AnomalyDetectionResult) :=
  let* collected := sweep_collect in
  let (anomalies, top_ips) := collected in
  auto_block top_ips ;;
  ret anomalies.

(** ** add_mitigation (lines 604-646) *)

Definition add_mitigation (action : MitigationAction) : M bool :=
  if String.eqb (action_type action) "block" then
    let* success := add_to_cloudflare_blocklist (target action) (duration action) in
    (if success
     then r_set ("blocked:" ++ target action) (reason action) (duration action)
     else ret tt) ;;
    ret success
  else if String.eqb (action_type action) "challenge" then
    catch_all
      (let* success := add_challenge_rule (target action) in
       (if success
        then r_set ("challenged:" ++ target action) (reason action) (duration action)
        else ret tt) ;;
       ret success)
      (ret false)
  else
    r_set ("monitored:" ++ target action) (reason action) (duration action) ;;
    ret true.

End Engine.

(** ** startup_event (lines 111-152) *)

(** TS.CREATE k RETENTION r: an error when the key exists. The 24 h
    retention only trims samples a day older than the newest one; no range
    the code reads reaches that far back. *)
Definition ts_create_cmd (k : string) (m : gmap string entry)
  : (exn + unit) * gmap string entry :=
  match m !! k with
  | Some _ => (inl ResponseError, m)
  | None => (inr tt, <[k := Entry (RSeries Block []) None]> m)
  end.

Definition ts_create k : M unit := redis (ts_create_cmd k).

(** TS.ADD k t v DUPLICATE_POLICY SUM *)
Definition ts_add_sum k t v : M unit := redis (ts_add_cmd Sum k t v).

(** The fifteen series created at startup, in the order of the source. *)
Definition startup_keys : list string :=
  ["ddos:total_rps"; "ddos:total_rps:avg"; "ddos:total_rps:std";
   "ddos:path_rps"; "ddos:path_rps:avg"; "ddos:path_rps:std";
   "ddos:ip_rps"; "ddos:ip_rps:avg"; "ddos:ip_rps:std";
   "ddos:response_time"; "ddos:response_time:avg"; "ddos:response_time:std";
   "ddos:error_rate"; "ddos:error_rate:avg"; "ddos:error_rate:std"].

Fixpoint create_all (keys : list string) : M unit :=
  match keys with
  | [] => ret tt
  | k :: rest => ts_create k ;; create_all rest
  end.

(** [try: create ... except ResponseError: log]; the logging has no effect
    on the store. *)
Definition startup_event : M unit :=
  catch_response (create_all startup_keys) (ret tt).

(** ** Python helpers of the dashboard *)

(** [s.replace(old, "")]: every non-overlapping occurrence of [old], found
    scanning left to right, is removed. Each step consumes at least one
    character, so [length s] steps suffice; for [old = ""] the string is
    returned unchanged, as in Python. *)
Fixpoint replace_aux (old : string) (fuel : nat) (s : string) : string :=
  match fuel with
  | O => s
  | S fuel' =>
      match s with
      | EmptyString => EmptyString
      | String c rest =>
          if String.prefix old s
          then replace_aux old fuel' (substring (String.length old) (String.length s) s)
          else String c (replace_aux old fuel' rest)
      end
  end.

Definition py_replace_empty (old s : string) : string :=
  replace_aux old (String.length s) s.

(** [l.sort(key=key, reverse=True)] on float keys: a stable sort by
    decreasing key (elements with equal keys keep their order); each element
    goes after those whose key is not smaller. For keys that are not NaN this
    is the order CPython's sort produces. *)
Fixpoint insert_desc {A} (key : A -> float) (x : A) (l : list A) : list A :=
  match l with
  | [] => [x]
  | y :: rest => if (key x <=? key y)%float then y :: insert_desc key x rest else x :: l
  end.

Definition sort_desc {A} (key : A -> float) (l : list A) : list A :=
  fold_left (fun acc x => insert_desc key x acc) l [].

(** ** TS.RANGE with AGGREGATION (buckets aligned to the epoch) *)

Definition bucket_of (bucket t : Z) : Z := t - t mod bucket.

(** Consecutive samples of one bucket, bucket start first. *)
Fixpoint group_buckets (bucket : Z) (pts : list (Z * float)) : list (Z * list float) :=
  match pts with
  | [] => []
  | (t, v) :: rest =>
      match group_buckets bucket rest with
      | (bt, vs) :: groups =>
          if bt =? bucket_of bucket t
          then (bt, v :: vs) :: groups
          else (bucket_of bucket t, [v]) :: (bt, vs) :: groups
      | [] => [(bucket_of bucket t, [v])]
      end
  end.

(** The sum and avg aggregators of RedisTimeSeries: the values of the bucket
    added in order from 0, and that sum divided by their count. *)
Definition agg_sum (vs : list float) : float := fold_left PrimFloat.add vs 0%float.
Definition agg_avg (vs : list float) : float := (agg_sum vs / float_of_nat (length vs))%float.

Definition ts_range_agg_cmd (agg : list float -> float) (bucket : Z) (k : string) (from to : Z)
  (m : gmap string entry) : (exn + list (Z * float)) * gmap string entry :=
  match m !! k with
  | Some (Entry (RSeries _ pts) _) =>
      (inr (map (fun g => (fst g, agg (snd g))) (group_buckets bucket (ts_window from to pts))), m)
  | _ => (inl ResponseError, m)
  end.

Definition ts_range_agg agg bucket k from to : M (list (Z * float)) :=
  redis (ts_range_agg_cmd agg bucket k from to).

(** The dashboard payload of [get_metrics]. *)
Record Metrics := {
  total_rps : list (float * float);
  response_times : list (float * float);
  error_rates : list (float * float);
  top_paths : list (string * float);
  top_ips : list (string * float);
  blocked_ips : list (string * option rval)
}.

(** The request as the middleware sees it. *)
Record HttpRequest := {
  client_host : option string;
  url_path : string
}.

Section Dashboard.

Variable E : Env.

(** ** track_requests (lines 156-212) *)

Definition record_metrics (client_ip path : string) (timestamp : Z)
  (response_time : float) (status_code : Z) : M unit :=
  ts_add_sum "ddos:total_rps" timestamp 1%float ;;
  let path_key := "ddos:path:" ++ path in
  catch_response (ts_add_sum path_key timestamp 1%float)
    (ts_create path_key ;; ts_add_sum path_key timestamp 1%float) ;;
  let ip_key := "ddos:ip:" ++ client_ip in
  catch_response (ts_add_sum ip_key timestamp 1%float)
    (ts_create ip_key ;; ts_add_sum ip_key timestamp 1%float) ;;
  ts_add "ddos:response_time" timestamp response_time ;;
  let is_error := if status_code >=? 400 then 1 else 0 in
  ts_add_sum "ddos:error_rate" timestamp (float_of_Z is_error).

(** [call_next] is the downstream handler; [status_code] reads the status of
    its response; [response_time] is the measured duration. *)
Definition track_requests {A} (request : HttpRequest) (response_time : float)
  (call_next : M A) (status_code : A -> Z) : M A :=
  let client_ip := match client_host request with Some h => h | None => "unknown" end in
  let path := url_path request in
  let* response := call_next in
  catch_all
    (record_metrics client_ip path (now_ms E) response_time (status_code response))
    (ret tt) ;;
  ret response.

(** ** get_metrics (lines 453-600) *)

(** The per-key loop over [ddos:path:*] or [ddos:ip:*]: the first one-hour
    sum bucket of each base key that has data. *)
Fixpoint volume_loop (prefix : string) (keys : list string) (start_time current_time : Z)
  (values : list (string * float)) : M (list (string * float)) :=
  match keys with
  | [] => ret values
  | key :: rest =>
      if is_base_key key then
        let* entry := catch_response
          (let* data := ts_range_agg agg_sum 3600000 key start_time current_time in
           ret (match data with
                | [] => None
                | point :: _ => Some (py_replace_empty prefix key, snd point)
                end))
          (ret None) in
        volume_loop prefix rest start_time current_time
          (match entry with Some e => (values ++ [e])%list | None => values end)
      else volume_loop prefix rest start_time current_time values
  end.

Fixpoint blocked_loop (keys : list string) (acc : list (string * option rval))
  : M (list (string * option rval)) :=
  match keys with
  | [] => ret acc
  | key :: rest =>
      let* reason := r_get key in
      blocked_loop rest (acc ++ [(py_replace_empty "blocked:" key, reason)])%list
  end.

Definition get_metrics : M Metrics :=
  let current_time := now_ms E in
  let start_time := current_time - 3600 * 1000 in
  let* total_rps := catch_response
    (let* data := ts_range_agg agg_avg 60000 "ddos:total_rps" start_time current_time in
     ret (map (fun point => (int_truediv (fst point) 1000, snd point)) data))
    (ret []) in
  let* response_times := catch_response
    (let* data := ts_range_agg agg_avg 60000 "ddos:response_time" start_time current_time in
     ret (map (fun point => (int_truediv (fst point) 1000, snd point)) data))
    (ret []) in
  let* error_rates := catch_response
    (let* data := ts_range_agg agg_avg 60000 "ddos:error_rate" start_time current_time in
     ret (map (fun point => (int_truediv (fst point) 1000, (snd point * 100)%float)) data))
    (ret []) in
  let* path_keys := scan_iter "ddos:path:" in
  let* path_values := volume_loop "ddos:path:" path_keys start_time current_time [] in
  let top_paths := firstn 10 (sort_desc snd path_values) in
  let* ip_keys := scan_iter "ddos:ip:" in
  let* ip_values := volume_loop "ddos:ip:" ip_keys start_time current_time [] in
  let top_ips := firstn 10 (sort_desc snd ip_values) in
  let* blocked_keys := scan_iter "blocked:" in
  let* blocked_ips := blocked_loop blocked_keys [] in
  ret {| total_rps := total_rps; response_times := response_times;
         error_rates := error_rates; top_paths := top_paths; top_ips := top_ips;
         blocked_ips := blocked_ips |}.

End Dashboard.

(** ** Reading the store back *)

(** The key can take a TS.ADD at timestamp [t] that adds a sample: it is
    absent, or a series whose samples are all earlier than [t]. *)
Definition ts_before (m : gmap string entry) (k : string) (t : Z) : bool :=
  match m !! k with
  | None => true
  | Some (Entry (RSeries _ pts) _) => forallb (fun p => fst p <? t) pts
  | Some _ => false
  end.

(** The sample of series [k] at timestamp [t]. *)
Definition series_at (m : gmap string entry) (k : string) (t : Z) : option float :=
  match m !! k with
  | Some (Entry (RSeries _ pts) _) => option_map snd (List.find (fun p => fst p =? t) pts)
  | _ => None
  end.

(** Timestamps strictly increase along a series (RedisTimeSeries keeps one
    sample per timestamp, in order). *)
Fixpoint ts_sorted (pts : list (Z * float)) : bool :=
  match pts with
  | [] => true
  | p :: rest => forallb (fun q => fst p <? fst q) rest && ts_sorted rest
  end.



(** An IP-scoped result: its metric is a [ddos:ip:] key. *)
Definition is_ip_result (a : AnomalyDetectionResult) : bool :=
  String.prefix "ddos:ip:" (metric a).

(** The pair the IP loop records for an anomalous result. *)
Definition ip_target (a : AnomalyDetectionResult) : string * float :=
  (ip_of_key (metric a), value a).

(** The anomalous IP-scoped results above the auto-block threshold. *)
Definition auto_block_hot (anomalies : list AnomalyDetectionResult)
  : list AnomalyDetectionResult :=
  List.filter (fun a => is_ip_result a && (100 <? value a)%float) anomalies.

(** The store after the auto-block loop, on a reachable store. *)
Fixpoint auto_block_keys (top : list (string * float)) (m : gmap string entry)
  : gmap string entry :=
  match top with
  | [] => m
  | (ip, v) :: rest =>
      auto_block_keys rest
        (if (100 <? v)%float
         then <["blocked:" ++ ip := Entry (RText "auto_anomaly") (Some 3600)]> m
         else m)
  end.

(** ** Reasoning vocabulary *)

(** The store after the two baseline writes of [detect_compute]. *)
Definition baseline_keys (metric : string) (t : Z) (avg std_dev : float)
  (m : gmap string entry) : gmap string entry :=
  snd (ts_add_cmd Block (metric ++ ":std") t std_dev
         (snd (ts_add_cmd Block (metric ++ ":avg") t avg m))).

(** The mean and the squares of the deviations that [detect_compute]
    computes for a window, and the outcome of [** 0.5] on the variance. *)
Definition window_mean (E : Env) (values : list float) : float :=
  (float_sum E values / float_of_nat (length values))%float.
Definition window_sqrt (E : Env) (values : list float) (sq : list float)
  : option (exn + float) :=
  py_sqrt (libm_pow E) (float_sum E sq / float_of_nat (length values))%float.

(** The order of doubles as a key: the comparison of two spec floats that
    are not NaN is the lexicographic comparison of their keys. *)
Definition sf_key (f : spec_float) : Z * Z * Z :=
  match f with
  | S754_infinity true => (0, 0, 0)
  | S754_finite true m e => (1, - e, - Zpos m)
  | S754_zero _ => (2, 0, 0)
  | S754_finite false m e => (3, e, Zpos m)
  | S754_infinity false => (4, 0, 0)
  | S754_nan => (5, 0, 0)
  end.

Definition lexcmp (x y : Z * Z * Z) : comparison :=
  match x, y with
  | (a1, a2, a3), (b1, b2, b3) =>
      match Z.compare a1 b1 with
      | Eq => match Z.compare a2 b2 with Eq => Z.compare a3 b3 | c => c end
      | c => c
      end
  end.

(** Stores that differ only in the blocked registry. *)
Definition blocked_key (k : string) : bool := String.prefix "blocked:" k.

(** Two states agree everywhere except on keys [blocked:*]. *)
Definition agree_off_blocked (m1 m2 : gmap string entry) : Prop :=
  forall k, blocked_key k = false -> m1 !! k = m2 !! k.

Definition st_rel (s1 s2 : St) : Prop :=
  st_up s1 = st_up s2 /\ st_calls s1 = st_calls s2 /\
  agree_off_blocked (st_keys s1) (st_keys s2).

(** A computation that cannot tell such states apart, and keeps them so. *)
Definition respects {A} (m : M A) : Prop :=
  forall s1 s2, st_rel s1 s2 ->
    fst (m s1) = fst (m s2) /\ st_rel (snd (m s1)) (snd (m s2)).

(** Frames: which keys a computation may write. *)

(** [m] makes no outbound call, keeps reachability, and changes no key
    outside [W]. *)
Definition touches_only {A} (W : string -> Prop) (m : M A) : Prop :=
  forall s, st_calls (snd (m s)) = st_calls s /\ st_up (snd (m s)) = st_up s /\
            forall k, ~ W k -> st_keys (snd (m s)) !! k = st_keys s !! k.

(** The five series [record_metrics] writes for one request. *)
Definition metric_keys (client_ip path : string) (k : string) : Prop :=
  k = "ddos:total_rps" \/ k = "ddos:path:" ++ path \/ k = "ddos:ip:" ++ client_ip \/
  k = "ddos:response_time" \/ k = "ddos:error_rate".

(** A lookup that GET can read: no key, or a key that does not hold a series. *)
Definition not_series (o : option entry) : bool :=
  match o with Some (Entry (RSeries _ _) _) => false | _ => true end.

(** The keys of [keys] that precede the first one already present in [m]:
    those [create_all] gets to create before TS.CREATE fails. *)
Fixpoint absent_prefix (m : gmap string entry) (keys : list string) : list string :=
  match keys with
  | [] => []
  | k :: rest =>
      match m !! k with
      | Some _ => []
      | None => k :: absent_prefix m rest
      end
  end.

(** ** Fixtures *)

(** A C library whose [pow] rounds correctly on the exponents main.py uses:
    the square and the square root, each rounded once (NaN for any other
    exponent, which main.py never passes). *)
Definition pow_cr (x y : float) : float :=
  if (y =? 2)%float then (x * x)%float
  else if (y =? 0.5)%float then PrimFloat.sqrt x
  else nan.

(** A clock at 1 000 000 ms, no threat signal, a firewall that accepts;
    CPython 3.11. *)
Definition env0 : Env := {|
  now_ms := 1000000;
  threat_api := fun _ => None;
  cf_block_ok := fun _ _ => true;
  cf_challenge_ok := fun _ => true;
  float_sum := sum_left;
  libm_pow := pow_cr
|}.


(** An empty reachable store. *)
Definition st_empty : St := mkSt ∅ true [].

(** A store that cannot be reached. *)
Definition st_down : St := mkSt ∅ false [].

(** [n] samples of value [v], one per second, ending at [t_end]. *)
Fixpoint samples (n : nat) (t_end : Z) (v : float) : list (Z * float) :=
  match n with
  | O => []
  | S k => (samples k (t_end - 1000) v ++ [(t_end, v)])%list
  end.

(** The values [vs], one per second from [t]. *)
Fixpoint series_from (t : Z) (vs : list float) : list (Z * float) :=
  match vs with
  | [] => []
  | v :: rest => (t, v) :: series_from (t + 1000) rest
  end.

(** The values [vs], one per second, the last at [t_end]. *)
Definition series_ending (t_end : Z) (vs : list float) : list (Z * float) :=
  series_from (t_end - 1000 * (Z.of_nat (length vs) - 1)) vs.

(** A [ddos:total_rps] series created at startup that already holds a
    sample at the current millisecond of [env0]. *)
Definition st_total_dup : St :=
  mkSt {[ "ddos:total_rps" := Entry (RSeries Block [(1000000, 1%float)]) None ]} true [].

(** A request from one client. *)
Definition req0 : VerificationRequest :=
  {| clientIP := "203.0.113.7"; userAgent := "curl/8.0"; cookies := None; headers := None |}.

(** That client, verified by cookie an hour ago. *)
Definition st_verified : St :=
  mkSt {[ "verified:203.0.113.7" := Entry (RText "cookie") (Some 3600) ]} true [].

(** That client, auto-blocked by a sweep and nothing else. *)
Definition st_blocked : St :=
  mkSt {[ "blocked:203.0.113.7" := Entry (RText "auto_anomaly") (Some 3600) ]} true [].

(** That client after one admitted request. *)
Definition st_one_request : St :=
  mkSt {[ "ratelimit:203.0.113.7" := Entry (RInt 1) (Some RATE_LIMIT_WINDOW) ]} true [].

(** A threat feed that scores every address 90. *)
Definition threat_hot : ThreatIntelResult := {|
  ip := "203.0.113.7"; risk_score := 90%R; categories := ["botnet"];
  is_proxy := false; is_tor := false; is_vpn := false;
  country_code := "ZZ"; asn := 64500; asn_name := "EXAMPLE-NET"
|}.

Definition env_hot : Env := {|
  now_ms := 1000000;
  threat_api := fun _ => Some threat_hot;
  cf_block_ok := fun _ _ => true;
  cf_challenge_ok := fun _ => true;
  float_sum := sum_left;
  libm_pow := pow_cr
|}.

(** The global request-rate metric with [n] samples of value [v] in the last
    minute of [env0]'s clock. *)
Definition st_series (n : nat) (v : float) : St :=
  mkSt {[ "ddos:total_rps" := Entry (RSeries Block (samples n 1000000 v)) None ]} true [].

(** The global request-rate metric holding the values [vs], one per second,
    the last at [env0]'s clock. *)
Definition st_window (vs : list float) : St :=
  mkSt {[ "ddos:total_rps" := Entry (RSeries Block (series_ending 1000000 vs)) None ]}
       true [].


(** Thirty values of 0.03: a constant window. *)
Definition const_window : list float := repeat 0.03%float 30.

(** One IP-scoped metric with too few samples to be judged. *)
Definition st_sparse : St :=
  mkSt {[ "ddos:ip:198.51.100.9" := Entry (RSeries Sum (samples 5 1000000 120%float)) None ]}
       true [].

(** The spec's sweep example: the request rates of clients A and B jump to
    150 and to 40 after 29 quiet seconds. *)
Definition st_two_ips : St :=
  mkSt (<["ddos:ip:A" := Entry (RSeries Sum (series_ending 1000000
                                 (repeat 10%float 29 ++ [150%float])%list)) None]>
        {[ "ddos:ip:B" := Entry (RSeries Sum (series_ending 1000000
                                 (repeat 1%float 29 ++ [40%float])%list)) None ]})
       true [].


(** That client at the rate limit, and at sixty requests in the window. *)
Definition st_limited : St :=
  mkSt {[ "ratelimit:203.0.113.7" := Entry (RInt 1000) (Some RATE_LIMIT_WINDOW) ]} true [].

Definition st_sixty : St :=
  mkSt {[ "ratelimit:203.0.113.7" := Entry (RInt 60) (Some RATE_LIMIT_WINDOW) ]} true [].

(** A request for the login page from that client. *)
Definition http0 : HttpRequest := {| client_host := Some "203.0.113.7"; url_path := "/login" |}.

(** Requests for the login page on both sides of a full hour. *)
Definition st_two_hours : St :=
  mkSt {[ "ddos:path:/login" := Entry (RSeries Sum [(3599000, 5%float); (3601000, 7%float)]) None ]}
       true [].

(** A manual block for an hour, and a manual challenge. *)
Definition block0 : MitigationAction :=
  {| action_type := "block"; target := "198.51.100.9"; duration := 3600; reason := "manual" |}.


(** ** Basic facts about the monad and the store *)

Lemma set_keys_same (s : St) : set_keys (st_keys s) s = s.
Proof. by destruct s. Qed.

Lemma set_keys_set_keys (m1 m2 : gmap string entry) (s : St) :
  set_keys m2 (set_keys m1 s) = set_keys m2 s.
Proof. by destruct s. Qed.

Lemma redis_up {A} (f : gmap string entry -> (exn + A) * gmap string entry) (s : St) :
  st_up s = true -> redis f s = (fst (f (st_keys s)), set_keys (snd (f (st_keys s))) s).
Proof. intros H. unfold redis. rewrite H. by destruct (f (st_keys s)). Qed.

Lemma redis_down {A} (f : gmap string entry -> (exn + A) * gmap string entry) (s : St) :
  st_up s = false -> redis f s = (inl ConnectionError, s).
Proof. intros H. unfold redis. by rewrite H. Qed.

(** ** Strings *)

Lemma append_cancel_l (m a b : string) : m ++ a = m ++ b -> a = b.
Proof. induction m as [|c m IH]; simpl; [done|]. intros H. injection H. exact IH. Qed.

Lemma length_append_str (a b : string) :
  String.length (a ++ b) = (String.length a + String.length b)%nat.
Proof. induction a as [|c a IH]; simpl; [done|]. by rewrite IH. Qed.

Lemma suffix_neq (m x : string) : x <> "" -> m ++ x <> m.
Proof.
  intros Hx H. apply (f_equal String.length) in H.
  rewrite length_append_str in H. destruct x; [done|]. simpl in H. lia.
Qed.

Lemma avg_std_neq (m : string) : m ++ ":avg" <> m ++ ":std".
Proof. intros H. apply append_cancel_l in H. discriminate. Qed.

(** ** Time series writes *)

Lemma ts_add_cmd_other (dp : dup_policy) (k k' : string) (t : Z) (v : float)
  (m : gmap string entry) :
  k' <> k -> snd (ts_add_cmd dp k t v m) !! k' = m !! k'.
Proof.
  intros Hne. unfold ts_add_cmd.
  destruct (negb (PrimFloat.is_finite v)); [done|].
  destruct (m !! k) as [[[| |dp' pts] ttl]|]; simpl; try done;
    [destruct (ts_upsert dp' t v pts)|]; simpl; try done;
  by rewrite lookup_insert_ne.
Qed.

(** A sample later than every stored one is appended. *)
Lemma ts_upsert_after (dp : dup_policy) (t : Z) (v : float) (pts : list (Z * float)) :
  forallb (fun p => fst p <? t) pts = true -> ts_upsert dp t v pts = Some (pts ++ [(t, v)])%list.
Proof.
  induction pts as [|[t' v'] rest IH]; simpl; [done|].
  intros [Hlt Hrest]%andb_prop. apply Z.ltb_lt in Hlt.
  assert (H1 : (t <? t') = false) by (apply Z.ltb_ge; lia).
  assert (H2 : (t =? t') = false) by (apply Z.eqb_neq; lia).
  rewrite H1, H2, IH by exact Hrest. done.
Qed.

Lemma find_after (t : Z) (v : float) (pts : list (Z * float)) :
  forallb (fun p => fst p <? t) pts = true ->
  List.find (fun p => fst p =? t) (pts ++ [(t, v)])%list = Some (t, v).
Proof.
  induction pts as [|[t' v'] rest IH]; simpl.
  - by rewrite Z.eqb_refl.
  - intros [Hlt Hrest]%andb_prop. apply Z.ltb_lt in Hlt.
    assert (H2 : (t' =? t) = false) by (apply Z.eqb_neq; lia).
    rewrite H2. exact (IH Hrest).
Qed.

Lemma ts_add_cmd_ok (dp : dup_policy) (k : string) (t : Z) (v : float) (m : gmap string entry) :
  PrimFloat.is_finite v = true -> ts_before m k t = true ->
  fst (ts_add_cmd dp k t v m) = inr tt.
Proof.
  intros Hv. unfold ts_before, ts_add_cmd. rewrite Hv. simpl.
  destruct (m !! k) as [[[| |dp' pts] ttl]|]; simpl; try done.
  intros H. by rewrite ts_upsert_after.
Qed.

Lemma series_at_ts_add (dp : dup_policy) (k : string) (t : Z) (v : float)
  (m : gmap string entry) :
  PrimFloat.is_finite v = true -> ts_before m k t = true ->
  series_at (snd (ts_add_cmd dp k t v m)) k t = Some v.
Proof.
  intros Hv. unfold ts_before, ts_add_cmd, series_at. rewrite Hv. simpl.
  destruct (m !! k) as [[[| |dp' pts] ttl]|]; simpl; try done; intros H.
  - rewrite ts_upsert_after by exact H. simpl. rewrite lookup_insert_eq. simpl.
    by rewrite find_after.
  - rewrite lookup_insert_eq. simpl. by rewrite Z.eqb_refl.
Qed.

Lemma ts_before_other (dp : dup_policy) (k k' : string) (t t' : Z) (v : float)
  (m : gmap string entry) :
  k' <> k -> ts_before (snd (ts_add_cmd dp k t v m)) k' t' = ts_before m k' t'.
Proof. intros Hne. unfold ts_before. by rewrite ts_add_cmd_other. Qed.

Lemma series_at_other (dp : dup_policy) (k k' : string) (t t' : Z) (v : float)
  (m : gmap string entry) :
  k' <> k -> series_at (snd (ts_add_cmd dp k t v m)) k' t' = series_at m k' t'.
Proof. intros Hne. unfold series_at. by rewrite ts_add_cmd_other. Qed.

(** The statistics stage, when the arithmetic stays in finite doubles and
    both baseline keys can take a new sample. *)
Lemma detect_compute_run (E : Env) (metric : string) (t : Z) (data : list (Z * float))
  (s : St) (sq : list float) (sd : float) :
  st_up s = true ->
  let values := map snd data in
  let avg := window_mean E values in
  squares E avg values = inr sq ->
  window_sqrt E values sq = Some (inr sd) ->
  PrimFloat.is_finite avg = true -> PrimFloat.is_finite sd = true ->
  ts_before (st_keys s) (metric ++ ":avg") t = true ->
  ts_before (st_keys s) (metric ++ ":std") t = true ->
  let z := zscore_of (current_value_of data) avg sd in
  detect_compute E metric t data s =
    (inr (Some {| timestamp := int_truediv t 1000; metric := metric;
                  value := current_value_of data; zscore := z;
                  is_anomaly := (ZSCORE_THRESHOLD <? PrimFloat.abs z)%float;
                  threshold := ZSCORE_THRESHOLD |}),
     set_keys (baseline_keys metric t avg sd (st_keys s)) s).
Proof.
  intros Hup values avg Hsq Hsd Hfa Hfs Ha Hs z.
  unfold detect_compute. fold values.
  change (float_sum E values / float_of_nat (length values))%float with avg.
  change (py_sqrt (libm_pow E) (float_sum E ?l / float_of_nat (length values))%float)
    with (window_sqrt E values l).
  unfold bind at 1, lift. rewrite Hsq. rewrite Hsd.
  unfold bind at 1, lift. unfold bind, ts_add, redis, ret. rewrite Hup.
  pose proof (ts_add_cmd_ok Block _ _ _ _ Hfa Ha) as H1.
  destruct (ts_add_cmd Block (metric ++ ":avg") t avg (st_keys s)) as [r1 m1] eqn:E1.
  simpl in H1. subst r1. cbn [st_keys st_up set_keys]. rewrite Hup.
  assert (Hs' : ts_before m1 (metric ++ ":std") t = true).
  { replace m1 with (snd (ts_add_cmd Block (metric ++ ":avg") t avg (st_keys s)))
      by (rewrite E1; done).
    rewrite ts_before_other; [exact Hs|]. apply not_eq_sym, avg_std_neq. }
  pose proof (ts_add_cmd_ok Block _ _ _ _ Hfs Hs') as H2.
  destruct (ts_add_cmd Block (metric ++ ":std") t sd m1) as [r2 m2] eqn:E2.
  simpl in H2. subst r2.
  unfold baseline_keys. rewrite E1. simpl. rewrite E2. simpl.
  rewrite set_keys_set_keys. reflexivity.
Qed.

Lemma Rgtb_spec (x y : R) : Rgtb x y = true <-> (x > y)%R.
Proof. unfold Rgtb. destruct (Rgt_dec x y); split; done. Qed.

(** ** Sorted series *)

Lemma ts_sorted_filter (f : Z * float -> bool) (pts : list (Z * float)) :
  ts_sorted pts = true -> ts_sorted (List.filter f pts) = true.
Proof.
  induction pts as [|p rest IH]; simpl; [done|].
  intros [Hall Hrest]%andb_prop.
  destruct (f p); simpl; rewrite IH by done; [|done].
  rewrite andb_true_r. apply forallb_forall. intros q Hq.
  apply filter_In in Hq. apply (proj1 (forallb_forall _ _) Hall). tauto.
Qed.



(** ** The window check of detect_anomalies *)

Lemma detect_anomalies_series (E : Env) (metric : string) (s : St)
  (dp : dup_policy) (pts : list (Z * float)) (ttl : option Z) :
  st_up s = true ->
  st_keys s !! metric = Some (Entry (RSeries dp pts) ttl) ->
  let data := ts_window (now_ms E - WINDOW_SIZE * 1000) (now_ms E) pts in
  ((length data < MIN_DATA_POINTS)%nat ->
     detect_anomalies E metric s = (inr None, s)) /\
  ((MIN_DATA_POINTS <= length data)%nat ->
     detect_anomalies E metric s = detect_compute E metric (now_ms E) data s).
Proof.
  intros Hup Hk data.
  unfold detect_anomalies, catch_response, bind, ts_range.
  rewrite (redis_up _ _ Hup). unfold ts_range_cmd. rewrite Hk. simpl.
  rewrite set_keys_same. fold data. split; intros Hlen.
  - apply Nat.ltb_lt in Hlen. rewrite Hlen, orb_true_r. done.
  - apply Nat.ltb_ge in Hlen. rewrite Hlen, orb_false_r.
    destruct data; [unfold MIN_DATA_POINTS in Hlen; simpl in Hlen; discriminate|done].
Qed.

Lemma baseline_other (metric k : string) (t : Z) (a d : float) (m : gmap string entry) :
  k <> metric ++ ":avg" -> k <> metric ++ ":std" ->
  baseline_keys metric t a d m !! k = m !! k.
Proof.
  intros H1 H2. unfold baseline_keys. rewrite !ts_add_cmd_other; done.
Qed.

Lemma baseline_avg (metric : string) (t : Z) (a d : float) (m : gmap string entry) :
  PrimFloat.is_finite a = true -> ts_before m (metric ++ ":avg") t = true ->
  series_at (baseline_keys metric t a d m) (metric ++ ":avg") t = Some a.
Proof.
  intros Hf H. unfold baseline_keys. rewrite series_at_other by apply avg_std_neq.
  by apply series_at_ts_add.
Qed.

Lemma baseline_std (metric : string) (t : Z) (a d : float) (m : gmap string entry) :
  PrimFloat.is_finite d = true -> ts_before m (metric ++ ":std") t = true ->
  series_at (baseline_keys metric t a d m) (metric ++ ":std") t = Some d.
Proof.
  intros Hf H. unfold baseline_keys. apply series_at_ts_add; [exact Hf|].
  rewrite ts_before_other; [done|]. apply not_eq_sym, avg_std_neq.
Qed.


Lemma Rgtb_false (x y : R) : ~ (x > y)%R -> Rgtb x y = false.
Proof. unfold Rgtb. by destruct (Rgt_dec x y). Qed.

(** ** Stores that differ only in the blocked registry *)

Lemma respects_ret {A} (a : A) : respects (ret a).
Proof. intros s1 s2 H. done. Qed.

Lemma respects_bind {A B} (m : M A) (k : A -> M B) :
  respects m -> (forall a, respects (k a)) -> respects (bind m k).
Proof.
  intros Hm Hk s1 s2 H. unfold bind.
  destruct (Hm s1 s2 H) as [Hr Hs].
  destruct (m s1) as [[e1|a1] s1'], (m s2) as [[e2|a2] s2']; simpl in *;
    try discriminate.
  - injection Hr as ->. done.
  - injection Hr as ->. apply Hk. exact Hs.
Qed.

Lemma respects_redis {A} (f : gmap string entry -> (exn + A) * gmap string entry) :
  (forall m1 m2, agree_off_blocked m1 m2 ->
     fst (f m1) = fst (f m2) /\ agree_off_blocked (snd (f m1)) (snd (f m2))) ->
  respects (redis f).
Proof.
  intros Hf s1 s2 (Hup & Hc & Hk). unfold redis. rewrite Hup.
  destruct (st_up s2) eqn:E2.
  - destruct (Hf _ _ Hk) as [Hr Ha].
    destruct (f (st_keys s1)), (f (st_keys s2)). simpl in *.
    split; [done|]. unfold st_rel, set_keys. simpl.
    split; [congruence|split; [exact Hc|exact Ha]].
  - simpl. split; [done|]. unfold st_rel.
    split; [congruence|split; [exact Hc|exact Hk]].
Qed.

Lemma agree_insert (m1 m2 : gmap string entry) (k : string) (e : entry) :
  agree_off_blocked m1 m2 -> agree_off_blocked (<[k := e]> m1) (<[k := e]> m2).
Proof.
  intros H k' Hk'. destruct (decide (k = k')) as [<-|Hne].
  - by rewrite !lookup_insert_eq.
  - rewrite !lookup_insert_ne by done. by apply H.
Qed.

Lemma respects_get (k : string) : blocked_key k = false -> respects (r_get k).
Proof.
  intros Hk. apply respects_redis. intros m1 m2 H. unfold kv_get.
  rewrite (H k Hk). by destruct (m2 !! k) as [[[] ?]|].
Qed.

Lemma respects_set (k v : string) (ex : Z) : respects (r_set k v ex).
Proof.
  apply respects_redis. intros m1 m2 H. unfold kv_set.
  destruct (ex <=? 0); simpl; [done|]. split; [done|]. by apply agree_insert.
Qed.

Lemma respects_pipe (k : string) (t : Z) :
  blocked_key k = false -> respects (pipe_incr_expire k t).
Proof.
  intros Hk. apply respects_redis. intros m1 m2 H.
  unfold kv_incr, kv_expire. rewrite (H k Hk).
  destruct (m2 !! k) as [[[s'|n|dp pts] tt']|] eqn:E; simpl;
    rewrite ?(H k Hk), ?E, ?lookup_insert_eq; simpl; split; try done;
    repeat apply agree_insert; exact H.
Qed.

Lemma respects_log {A} (a : A) (c : call) : respects (fun s => (inr a, log_call c s)).
Proof.
  intros s1 s2 (Hup & Hc & Hk). simpl. unfold st_rel, log_call. simpl. by rewrite Hc.
Qed.

Lemma verify_client_respects (E : Env) (req : VerificationRequest) :
  respects (verify_client E req).
Proof.
  assert (Hv : blocked_key ("verified:" ++ clientIP req) = false) by reflexivity.
  assert (Hr : blocked_key ("ratelimit:" ++ clientIP req) = false) by reflexivity.
  unfold verify_client.
  apply respects_bind; [by apply respects_get|]. intros v.
  destruct (truthy v); [apply respects_ret|].
  unfold check_rate_limit, rl_read, rl_commit. cbv zeta.
  apply respects_bind.
  { apply respects_bind.
    { apply respects_bind; [by apply respects_get|]. intros c.
      destruct c as [[s'| n| dp pts]|];
        try (destruct (String.eqb s' "")); try apply respects_ret.
      intros s1 s2 H. done. }
    intros count.
    destruct (count >=? RATE_LIMIT_MAX_REQUESTS); [apply respects_ret|].
    apply respects_bind; [by apply respects_pipe|]. intros _. apply respects_ret. }
  intros [is_limited cnt]. destruct is_limited; [apply respects_ret|].
  apply respects_bind; [apply respects_log|]. intros ti.
  destruct (match ti with Some t => Rgtb (risk_score t) 70 | None => false end).
  - apply respects_bind; [apply respects_log|]. intros _.
    apply respects_bind; [apply respects_set|]. intros _. apply respects_ret.
  - destruct (cnt >? 100); [apply respects_ret|].
    destruct (cnt >? 50); [apply respects_ret|].
    apply respects_bind; [apply respects_set|]. intros _. apply respects_ret.
Qed.

(** ** The rate limiter on a reachable store *)

Lemma check_rate_limit_fresh (ip : string) (s : St) :
  st_up s = true -> st_keys s !! ("ratelimit:" ++ ip) = None ->
  check_rate_limit ip s =
    (inr (false, 1),
     set_keys (<[("ratelimit:" ++ ip) := Entry (RInt 1) (Some RATE_LIMIT_WINDOW)]> (st_keys s)) s).
Proof.
  intros Hup Hk. unfold check_rate_limit, rl_read, rl_commit, bind, r_get. cbv zeta.
  rewrite (redis_up _ _ Hup). unfold kv_get. rewrite Hk. simpl. rewrite set_keys_same.
  unfold pipe_incr_expire. rewrite (redis_up _ _ Hup). unfold kv_incr, kv_expire.
  rewrite Hk. simpl. rewrite lookup_insert_eq. simpl. rewrite insert_insert_eq. done.
Qed.

Lemma check_rate_limit_count (ip : string) (s : St) (n : Z) (ttl : option Z) :
  st_up s = true -> st_keys s !! ("ratelimit:" ++ ip) = Some (Entry (RInt n) ttl) ->
  check_rate_limit ip s =
    if n >=? RATE_LIMIT_MAX_REQUESTS then (inr (true, n), s)
    else (inr (false, n + 1),
          set_keys (<[("ratelimit:" ++ ip) := Entry (RInt (n + 1)) (Some RATE_LIMIT_WINDOW)]>
                      (st_keys s)) s).
Proof.
  intros Hup Hk. unfold check_rate_limit, rl_read, rl_commit, bind, r_get. cbv zeta.
  rewrite (redis_up _ _ Hup). unfold kv_get. rewrite Hk. simpl. rewrite set_keys_same.
  destruct (n >=? RATE_LIMIT_MAX_REQUESTS); [done|].
  unfold pipe_incr_expire. rewrite (redis_up _ _ Hup). unfold kv_incr, kv_expire.
  rewrite Hk. simpl. rewrite lookup_insert_eq. simpl. rewrite insert_insert_eq. done.
Qed.

Lemma check_rate_limit_calls (ip : string) (s : St) :
  st_calls (snd (check_rate_limit ip s)) = st_calls s /\
  st_up (snd (check_rate_limit ip s)) = st_up s.
Proof.
  unfold check_rate_limit, rl_read, rl_commit, bind, r_get, redis. cbv zeta.
  destruct (st_up s) eqn:Hup; [|done].
  unfold kv_get. simpl.
  destruct (st_keys s !! ("ratelimit:" ++ ip)) as [[[sv|n|dp pts] ttl]|]; simpl;
    try destruct (String.eqb sv ""); simpl; try done;
    try destruct (n >=? RATE_LIMIT_MAX_REQUESTS); try done;
    unfold pipe_incr_expire, redis; simpl; rewrite Hup;
    destruct (kv_incr _ _) as [[] ?]; done.
Qed.

(** ** Frames: which keys a computation may write *)

Lemma touches_ret {A} (W : string -> Prop) (a : A) : touches_only W (ret a).
Proof. intros s. done. Qed.

Lemma touches_lift {A} (W : string -> Prop) (r : exn + A) : touches_only W (lift r).
Proof. intros s. done. Qed.

Lemma touches_raise {A} (W : string -> Prop) (e : exn) : touches_only W (@raise A e).
Proof. intros s. done. Qed.

Lemma touches_bind {A B} (W : string -> Prop) (m : M A) (k : A -> M B) :
  touches_only W m -> (forall a, touches_only W (k a)) -> touches_only W (bind m k).
Proof.
  intros Hm Hk s. unfold bind. destruct (Hm s) as (Hc & Hu & Hkeys).
  destruct (m s) as [[e|a] s1]; simpl in *; [done|].
  destruct (Hk a s1) as (Hc' & Hu' & Hkeys').
  split; [congruence|]. split; [congruence|].
  intros k' Hk'. rewrite Hkeys' by done. apply Hkeys. done.
Qed.

Lemma touches_weaken {A} (W W' : string -> Prop) (m : M A) :
  (forall k, W k -> W' k) -> touches_only W m -> touches_only W' m.
Proof.
  intros HW Hm s. destruct (Hm s) as (Hc & Hu & Hk).
  split; [done|]. split; [done|]. intros k Hn. apply Hk. intros HWk. apply Hn, HW, HWk.
Qed.

Lemma touches_catch {A} (W : string -> Prop) (m h : M A) :
  touches_only W m -> touches_only W h -> touches_only W (catch_response m h).
Proof.
  intros Hm Hh s. unfold catch_response. destruct (Hm s) as (Hc & Hu & Hk).
  destruct (m s) as [[[| | | |]|a] s1]; simpl in *; try done.
  destruct (Hh s1) as (Hc' & Hu' & Hk').
  split; [congruence|]. split; [congruence|].
  intros k Hn. rewrite Hk' by done. by apply Hk.
Qed.

Lemma touches_redis {A} (W : string -> Prop)
  (f : gmap string entry -> (exn + A) * gmap string entry) :
  (forall m k, ~ W k -> snd (f m) !! k = m !! k) -> touches_only W (redis f).
Proof.
  intros Hf s. unfold redis. destruct (st_up s) eqn:Hup; [|done].
  destruct (f (st_keys s)) as [r m] eqn:Ef. simpl.
  split; [done|]. split; [done|]. intros k Hk.
  rewrite <- (Hf (st_keys s) k Hk), Ef. done.
Qed.

Lemma touches_ts_add (k : string) (t : Z) (v : float) :
  touches_only (fun k' => k' = k) (ts_add k t v).
Proof.
  apply touches_redis. intros m k' Hk'. apply ts_add_cmd_other. exact Hk'.
Qed.

Lemma touches_ts_range (W : string -> Prop) (k : string) (from to : Z) :
  touches_only W (ts_range k from to).
Proof. apply touches_redis. intros m k' _. unfold ts_range_cmd. by destruct (m !! k) as [[[] ?]|]. Qed.

Lemma touches_scan (W : string -> Prop) (pattern : string) :
  touches_only W (scan_iter pattern).
Proof. apply touches_redis. done. Qed.

(** Evaluation writes only [metric:avg] and [metric:std]. *)
Lemma detect_anomalies_touches (E : Env) (metric : string) :
  touches_only (fun k => k = metric ++ ":avg" \/ k = metric ++ ":std")
    (detect_anomalies E metric).
Proof.
  unfold detect_anomalies. cbv zeta.
  apply touches_bind.
  - apply touches_catch; [|apply touches_ret].
    apply touches_bind; [apply touches_ts_range|]. intros d. apply touches_ret.
  - intros [data|]; [|apply touches_ret].
    destruct (_ || _); [apply touches_ret|].
    unfold detect_compute. cbv zeta.
    apply touches_bind; [apply touches_lift|]. intros sq.
    destruct (py_sqrt _ _) as [r|]; [|apply touches_raise].
    apply touches_bind; [apply touches_lift|]. intros sd.
    apply touches_bind.
    { eapply touches_weaken; [|apply touches_ts_add]. intros k ->. by left. }
    intros _. apply touches_bind.
    { eapply touches_weaken; [|apply touches_ts_add]. intros k ->. by right. }
    intros _. apply touches_ret.
Qed.

(** What the evaluation returns is about the evaluated key. *)
Lemma detect_anomalies_metric (E : Env) (m : string) (s s' : St)
  (a : AnomalyDetectionResult) :
  detect_anomalies E m s = (inr (Some a), s') -> metric a = m.
Proof.
  unfold detect_anomalies, bind, catch_response. cbv zeta.
  destruct (ts_range m _ _ s) as [[[| | | |]|d] s1]; simpl; try discriminate.
  destruct (_ || _); [discriminate|].
  unfold detect_compute, bind, ret, lift, raise. cbv zeta.
  destruct (squares _ _ _) as [e|sq]; [discriminate|].
  destruct (py_sqrt _ _) as [[e|sd]|]; [discriminate| |discriminate].
  destruct (ts_add _ _ _ s1) as [[e|[]] s2]; [discriminate|].
  destruct (ts_add _ _ _ s2) as [[e|[]] s3]; [discriminate|].
  intros H. injection H as <- _. done.
Qed.

Lemma detect_anomalies_down (E : Env) (metric : string) (s : St) :
  st_up s = false -> detect_anomalies E metric s = (inl ConnectionError, s).
Proof.
  intros Hdown. unfold detect_anomalies, catch_response, bind, ts_range.
  by rewrite (redis_down _ _ Hdown).
Qed.

(** ** The anomaly sweep *)

Lemma prefix_app (p k : string) :
  String.prefix p k = true -> exists r, k = (p ++ r)%string.
Proof.
  revert k. induction p as [|c p IH]; intros k H.
  - by exists k.
  - destruct k as [|c' k]; [discriminate|]. simpl in H.
    destruct (ascii_dec c c') as [<-|]; [|discriminate].
    destruct (IH k H) as [r ->]. by exists r.
Qed.

Lemma ddos_not_blocked (m x : string) :
  String.prefix "ddos:" m = true -> blocked_key (m ++ x) = false.
Proof. intros H. destruct (prefix_app _ _ H) as [r ->]. reflexivity. Qed.

Lemma ddos_sub_prefix (p k : string) :
  String.prefix "ddos:" p = true -> String.prefix p k = true ->
  String.prefix "ddos:" k = true.
Proof.
  intros Hp Hk. destruct (prefix_app _ _ Hp) as [r ->].
  destruct (prefix_app _ _ Hk) as [r' ->]. simpl.
  destruct (("" ++ r) ++ r')%string; reflexivity.
Qed.

Lemma detect_anomalies_touches_ddos (E : Env) (m : string) :
  String.prefix "ddos:" m = true ->
  touches_only (fun k => blocked_key k = false) (detect_anomalies E m).
Proof.
  intros Hm. eapply touches_weaken; [|apply detect_anomalies_touches].
  intros k [-> | ->]; by apply ddos_not_blocked.
Qed.

Lemma scan_iter_keys (p : string) (s s' : St) (keys : list string) :
  scan_iter p s = (inr keys, s') ->
  s' = s /\ Forall (fun k => String.prefix p k = true) keys.
Proof.
  unfold scan_iter, redis. destruct (st_up s); [|discriminate].
  unfold scan_cmd. intros H. injection H as <- <-. split.
  - apply set_keys_same.
  - apply Forall_forall. intros k Hk. apply list_elem_of_In, filter_In in Hk. apply Hk.
Qed.

Lemma touches_bind_scan {B} (W : string -> Prop) (p : string) (k : list string -> M B) :
  (forall keys, Forall (fun key => String.prefix p key = true) keys ->
                touches_only W (k keys)) ->
  touches_only W (bind (scan_iter p) k).
Proof.
  intros Hk s. unfold bind.
  destruct (scan_iter p s) as [[e|keys] s1] eqn:Es.
  - pose proof (touches_scan W p s) as Ht. rewrite Es in Ht. exact Ht.
  - destruct (scan_iter_keys _ _ _ _ Es) as [-> Hkeys]. exact (Hk keys Hkeys s).
Qed.

Lemma path_loop_touches (E : Env) (keys : list string) anomalies top :
  Forall (fun k => String.prefix "ddos:" k = true) keys ->
  touches_only (fun k => blocked_key k = false) (path_loop E keys anomalies top).
Proof.
  revert anomalies top. induction keys as [|key rest IH]; intros anomalies top Hk; simpl.
  - apply touches_ret.
  - inversion Hk as [|? ? Hkey Hrest]; subst.
    destruct (is_base_key key); [|by apply IH].
    apply touches_bind; [by apply detect_anomalies_touches_ddos|].
    intros [a|]; [|by apply IH]. destruct (is_anomaly a); by apply IH.
Qed.

Lemma ip_loop_touches (E : Env) (keys : list string) anomalies top :
  Forall (fun k => String.prefix "ddos:" k = true) keys ->
  touches_only (fun k => blocked_key k = false) (ip_loop E keys anomalies top).
Proof.
  revert anomalies top. induction keys as [|key rest IH]; intros anomalies top Hk; simpl.
  - apply touches_ret.
  - inversion Hk as [|? ? Hkey Hrest]; subst.
    destruct (is_base_key key); [|by apply IH].
    apply touches_bind; [by apply detect_anomalies_touches_ddos|].
    intros [a|]; [|by apply IH]. destruct (is_anomaly a); by apply IH.
Qed.

(** The collection phase writes baselines only: no call, no blocked key. *)
Lemma sweep_collect_touches (E : Env) :
  touches_only (fun k => blocked_key k = false) (sweep_collect E).
Proof.
  unfold sweep_collect. cbv zeta.
  apply touches_bind; [by apply detect_anomalies_touches_ddos|]. intros r1.
  apply touches_bind; [by apply detect_anomalies_touches_ddos|]. intros r2.
  apply touches_bind; [by apply detect_anomalies_touches_ddos|]. intros r3.
  apply touches_bind_scan. intros pk Hpk.
  apply touches_bind.
  { apply path_loop_touches. eapply Forall_impl; [exact Hpk|].
    intros k. by apply ddos_sub_prefix. }
  intros paths. apply touches_bind_scan. intros ik Hik.
  apply ip_loop_touches. eapply Forall_impl; [exact Hik|].
  intros k. by apply ddos_sub_prefix.
Qed.

Lemma collect_inv (E : Env) (m : string) (s s' : St)
  (r : option AnomalyDetectionResult) (acc : list AnomalyDetectionResult) :
  detect_anomalies E m s = (inr r, s') -> String.prefix "ddos:ip:" m = false ->
  Forall (fun a => is_anomaly a = true) acc -> List.filter is_ip_result acc = [] ->
  Forall (fun a => is_anomaly a = true) (collect r acc) /\
  List.filter is_ip_result (collect r acc) = [].
Proof.
  intros Hd Hm Ha Hf. destruct r as [a|]; simpl; [|done].
  destruct (is_anomaly a) eqn:Ea; [|done]. split.
  - apply Forall_app. split; [done|]. by constructor.
  - rewrite List.filter_app, Hf. simpl. unfold is_ip_result.
    rewrite (detect_anomalies_metric _ _ _ _ _ Hd), Hm. done.
Qed.

Lemma path_loop_inv (E : Env) (keys : list string) anomalies top s anomalies' top' s' :
  Forall (fun k => String.prefix "ddos:path:" k = true) keys ->
  path_loop E keys anomalies top s = (inr (anomalies', top'), s') ->
  Forall (fun a => is_anomaly a = true) anomalies ->
  List.filter is_ip_result anomalies = [] ->
  Forall (fun a => is_anomaly a = true) anomalies' /\
  List.filter is_ip_result anomalies' = [].
Proof.
  revert anomalies top s.
  induction keys as [|key rest IH]; intros anomalies top s Hk Hrun Ha Hf; simpl in Hrun.
  - injection Hrun as <- <- <-. done.
  - inversion Hk as [|? ? Hkey Hrest]; subst.
    destruct (is_base_key key); [|by eapply IH].
    unfold bind in Hrun.
    destruct (detect_anomalies E key s) as [[e|[a|]] s1] eqn:Ed;
      [discriminate| |by eapply IH].
    destruct (is_anomaly a) eqn:Ea; [|by eapply IH].
    eapply IH; [done|exact Hrun| |].
    + apply Forall_app. split; [done|]. by constructor.
    + rewrite List.filter_app, Hf. simpl. unfold is_ip_result.
      rewrite (detect_anomalies_metric _ _ _ _ _ Ed).
      destruct (prefix_app _ _ Hkey) as [r ->]. done.
Qed.

Lemma ip_loop_inv (E : Env) (keys : list string) anomalies top s anomalies' top' s' :
  Forall (fun k => String.prefix "ddos:ip:" k = true) keys ->
  ip_loop E keys anomalies top s = (inr (anomalies', top'), s') ->
  Forall (fun a => is_anomaly a = true) anomalies ->
  top = map ip_target (List.filter is_ip_result anomalies) ->
  Forall (fun a => is_anomaly a = true) anomalies' /\
  top' = map ip_target (List.filter is_ip_result anomalies').
Proof.
  revert anomalies top s.
  induction keys as [|key rest IH]; intros anomalies top s Hk Hrun Ha Htop; simpl in Hrun.
  - injection Hrun as <- <- <-. done.
  - inversion Hk as [|? ? Hkey Hrest]; subst.
    destruct (is_base_key key); [|by eapply IH].
    unfold bind in Hrun.
    destruct (detect_anomalies E key s) as [[e|[a|]] s1] eqn:Ed;
      [discriminate| |by eapply IH].
    destruct (is_anomaly a) eqn:Ea; [|by eapply IH].
    pose proof (detect_anomalies_metric _ _ _ _ _ Ed) as Hm.
    eapply IH; [done|exact Hrun| |].
    + apply Forall_app. split; [done|]. by constructor.
    + assert (is_ip_result a = true) as Hip.
      { unfold is_ip_result. rewrite Hm. exact Hkey. }
      rewrite List.filter_app, map_app. simpl. rewrite Hip. simpl.
      unfold ip_target. rewrite Hm. reflexivity.
Qed.

(** What the collection phase returns: anomalous results only, and the IP
    list is the projection of the IP-scoped ones, in order. *)
Lemma sweep_collect_inv (E : Env) (s s1 : St) anomalies top :
  sweep_collect E s = (inr (anomalies, top), s1) ->
  Forall (fun a => is_anomaly a = true) anomalies /\
  top = map ip_target (List.filter is_ip_result anomalies).
Proof.
  unfold sweep_collect, bind. cbv zeta.
  destruct (detect_anomalies E "ddos:total_rps" s) as [[e|r1] s2] eqn:E1;
    [discriminate|].
  destruct (collect_inv _ _ _ _ _ [] E1) as [Ha1 Hf1]; [done|done|done|].
  destruct (detect_anomalies E "ddos:response_time" s2) as [[e|r2] s3] eqn:E2;
    [discriminate|].
  destruct (collect_inv _ _ _ _ _ (collect r1 []) E2) as [Ha2 Hf2];
    [done|exact Ha1|exact Hf1|].
  destruct (detect_anomalies E "ddos:error_rate" s3) as [[e|r3] s4] eqn:E3;
    [discriminate|].
  destruct (collect_inv _ _ _ _ _ (collect r2 (collect r1 [])) E3) as [Ha3 Hf3];
    [done|exact Ha2|exact Hf2|].
  destruct (scan_iter "ddos:path:" s4) as [[e|pk] s5] eqn:E4; [discriminate|].
  destruct (scan_iter_keys _ _ _ _ E4) as [_ Hpk].
  destruct (path_loop E pk _ [] s5) as [[e|[pa pt]] s6] eqn:E5; [discriminate|].
  destruct (path_loop_inv _ _ _ _ _ _ _ _ Hpk E5 Ha3 Hf3) as [Hpa Hpf].
  destruct (scan_iter "ddos:ip:" s6) as [[e|ik] s7] eqn:E6; [discriminate|].
  destruct (scan_iter_keys _ _ _ _ E6) as [_ Hik].
  simpl. intros Hrun.
  eapply ip_loop_inv; [exact Hik|exact Hrun|exact Hpa|]. by rewrite Hpf.
Qed.

Lemma sweep_collect_down (E : Env) (s : St) :
  st_up s = false -> fst (sweep_collect E s) = inl ConnectionError.
Proof.
  intros Hdown. unfold sweep_collect, bind.
  by rewrite (detect_anomalies_down _ _ _ Hdown).
Qed.

Lemma auto_block_run (E : Env) (top : list (string * float)) (s : St) :
  st_up s = true ->
  auto_block E top s =
    (inr tt, mkSt (auto_block_keys top (st_keys s)) true
               (st_calls s ++ map (fun p => FirewallBlock (fst p) 3600)
                                   (List.filter (fun p => (100 <? snd p)%float) top))).
Proof.
  revert s. induction top as [|[ip v] rest IH]; intros s Hup; simpl.
  - destruct s as [m u c]; simpl in *; subst. by rewrite app_nil_r.
  - destruct ((100 <? v)%float) eqn:Hv; unfold bind, ret.
    + unfold add_to_cloudflare_blocklist, r_set, redis. simpl. rewrite Hup.
      unfold kv_set. simpl. rewrite IH by done. simpl.
      by rewrite <- app_assoc.
    + by rewrite IH.
Qed.

Lemma auto_block_keys_lookup (top : list (string * float)) (m : gmap string entry) (k : string) :
  auto_block_keys top m !! k =
    if existsb (fun p => (100 <? snd p)%float && String.eqb k ("blocked:" ++ fst p)) top
    then Some (Entry (RText "auto_anomaly") (Some 3600)) else m !! k.
Proof.
  revert m. induction top as [|[ip v] rest IH]; intros m; simpl; [done|].
  rewrite IH. destruct (existsb _ rest) eqn:Hr; [by rewrite orb_true_r|].
  rewrite orb_false_r.
  destruct ((100 <? v)%float); simpl; [|done].
  destruct (String.eqb_spec k ("blocked:" ++ ip)) as [->|Hne].
  - by rewrite lookup_insert_eq.
  - rewrite lookup_insert_ne by congruence. done.
Qed.

Lemma auto_block_top_exists (anomalies : list AnomalyDetectionResult) (k : string) :
  existsb (fun p => (100 <? snd p)%float && String.eqb k ("blocked:" ++ fst p))
    (map ip_target (List.filter is_ip_result anomalies)) =
  existsb (fun a => String.eqb k ("blocked:" ++ ip_of_key (metric a)))
    (auto_block_hot anomalies).
Proof.
  unfold auto_block_hot. induction anomalies as [|a rest IH]; simpl; [done|].
  destruct (is_ip_result a); simpl; [|done].
  rewrite IH. unfold ip_target; simpl. by destruct ((100 <? value a)%float).
Qed.

Lemma auto_block_top_calls (anomalies : list AnomalyDetectionResult) :
  map (fun p => FirewallBlock (fst p) 3600)
    (List.filter (fun p => (100 <? snd p)%float)
       (map ip_target (List.filter is_ip_result anomalies))) =
  map (fun a => FirewallBlock (ip_of_key (metric a)) 3600) (auto_block_hot anomalies).
Proof.
  unfold auto_block_hot. induction anomalies as [|a rest IH]; simpl; [done|].
  destruct (is_ip_result a); simpl; [|done].
  unfold ip_target at 1; simpl. destruct ((100 <? value a)%float); simpl; by rewrite IH.
Qed.

(** The spec's sweep example: IP metrics A = 150 and B = 40, both flagged;
    only A is blocked. *)
Lemma auto_block_example (E : Env) (s : St) :
  st_up s = true ->
  auto_block E [("A", 150%float); ("B", 40%float)] s =
    (inr tt, mkSt (<["blocked:A" := Entry (RText "auto_anomaly") (Some 3600)]> (st_keys s))
               true (st_calls s ++ [FirewallBlock "A" 3600])).
Proof.
  intros Hup. rewrite auto_block_run by done. simpl.
  change ((100 <? 150)%float) with true. change ((100 <? 40)%float) with false.
  done.
Qed.

Lemma samples_const (n : nat) (t_end from to : Z) (v x : float) :
  In x (map snd (ts_window from to (samples n t_end v))) -> x = v.
Proof.
  intros Hx. apply in_map_iff in Hx. destruct Hx as [p [<- Hp]].
  unfold ts_window in Hp. apply filter_In in Hp. destruct Hp as [Hp _].
  revert t_end Hp. induction n as [|n IH]; intros t_end Hp; simpl in Hp; [contradiction|].
  apply in_app_or in Hp. destruct Hp as [Hp|[<-|[]]]; [by eapply IH|reflexivity].
Qed.

(** ** Duplicate samples *)

(** Under the default BLOCK policy, a sample at a timestamp the series
    already holds is refused. *)
Lemma ts_upsert_dup (t : Z) (v : float) (pts : list (Z * float)) :
  ts_sorted pts = true -> In t (map fst pts) -> ts_upsert Block t v pts = None.
Proof.
  induction pts as [|[t' v'] rest IH]; simpl; [done|].
  intros [Hall Hrest]%andb_prop [Heq|Hin].
  - subst t'. rewrite Z.ltb_irrefl, Z.eqb_refl. done.
  - assert (Hlt : t' < t).
    { apply in_map_iff in Hin. destruct Hin as [[t2 v2] [<- Hp]].
      apply (proj1 (forallb_forall _ _) Hall) in Hp. simpl in Hp.
      by apply Z.ltb_lt in Hp. }
    assert (H1 : (t <? t') = false) by (apply Z.ltb_ge; lia).
    assert (H2 : (t =? t') = false) by (apply Z.eqb_neq; lia).
    rewrite H1, H2, IH by done. done.
Qed.

Lemma ts_add_cmd_dup (dp : dup_policy) (k : string) (t : Z) (v : float)
  (m : gmap string entry) (pts : list (Z * float)) (ttl : option Z) :
  PrimFloat.is_finite v = true ->
  m !! k = Some (Entry (RSeries Block pts) ttl) ->
  ts_sorted pts = true -> In t (map fst pts) ->
  ts_add_cmd dp k t v m = (inl ResponseError, m).
Proof.
  intros Hv Hk Hs Hin. unfold ts_add_cmd. rewrite Hv. simpl. rewrite Hk.
  by rewrite ts_upsert_dup.
Qed.

(** The statistics stage when [metric:avg] already has a sample at the
    evaluation timestamp under BLOCK: the first TS.ADD is refused and the
    error leaves the evaluation, with the store unchanged. *)
Lemma detect_compute_avg_dup (E : Env) (metric : string) (t : Z)
  (data : list (Z * float)) (s : St) (sq : list float) (sd : float)
  (pts : list (Z * float)) (ttl : option Z) :
  st_up s = true ->
  let values := map snd data in
  let avg := window_mean E values in
  squares E avg values = inr sq ->
  window_sqrt E values sq = Some (inr sd) ->
  PrimFloat.is_finite avg = true ->
  st_keys s !! (metric ++ ":avg") = Some (Entry (RSeries Block pts) ttl) ->
  ts_sorted pts = true -> In t (map fst pts) ->
  detect_compute E metric t data s = (inl ResponseError, s).
Proof.
  intros Hup values avg Hsq Hsd Hfa Hk Hsort Hin.
  unfold detect_compute. fold values.
  change (float_sum E values / float_of_nat (length values))%float with avg.
  change (py_sqrt (libm_pow E) (float_sum E ?l / float_of_nat (length values))%float)
    with (window_sqrt E values l).
  unfold bind at 1, lift. rewrite Hsq. rewrite Hsd.
  unfold bind at 1, lift. unfold bind at 1, ts_add at 1, redis. rewrite Hup.
  rewrite (ts_add_cmd_dup Block _ t avg (st_keys s) pts ttl Hfa Hk Hsort Hin).
  by rewrite set_keys_same.
Qed.

(** ** Exact statistics *)







(** ** Claims *)

(** C2. An IP with a live, non-empty "verified" entry is answered
    verified/cached at once: the store and the outbound call trace are left
    exactly as they were, so the rate limiter is not touched and the threat
    intelligence API is not queried, whatever they would have answered. *)
Theorem verify_client_cached_first (E : Env) (req : VerificationRequest) (s : St)
  (sv : string) (ttl : option Z) :
  st_up s = true ->
  st_keys s !! ("verified:" ++ clientIP req) = Some (Entry (RText sv) ttl) ->
  sv <> "" ->
  verify_client E req s = (inr (true, "cached"), s).
Proof.
  intros Hup Hv Hne.
  unfold verify_client, bind, r_get. rewrite (redis_up _ _ Hup).
  unfold kv_get. rewrite Hv. simpl. rewrite set_keys_same.
  apply String.eqb_neq in Hne. by rewrite Hne.
Qed.

(** C6. For a series key whose trailing window holds fewer than
    MIN_DATA_POINTS = 30 samples, evaluation returns absent and changes
    nothing; with 30 or more it goes on to the statistics stage. *)
Theorem detect_anomalies_min_points (E : Env) (metric : string) (s : St)
  (dp : dup_policy) (pts : list (Z * float)) (ttl : option Z) :
  st_up s = true ->
  st_keys s !! metric = Some (Entry (RSeries dp pts) ttl) ->
  let data := ts_window (now_ms E - WINDOW_SIZE * 1000) (now_ms E) pts in
  ((length data < MIN_DATA_POINTS)%nat ->
     detect_anomalies E metric s = (inr None, s)) /\
  ((MIN_DATA_POINTS <= length data)%nat ->
     detect_anomalies E metric s = detect_compute E metric (now_ms E) data s).
Proof.
  apply detect_anomalies_series.
Qed.

(** C7 (as stated, refuted). With the Redis server unreachable the
    evaluation does not degrade to "no signal": the connection error leaves
    [detect_anomalies] and the anomaly sweep that called it. *)
Lemma detect_anomalies_store_down_raises :
  detect_anomalies env0 "ddos:total_rps" st_down = (inl ConnectionError, st_down) /\
  fst (get_anomalies env0 st_down) = inl ConnectionError.
Proof. split; reflexivity. Qed.

(** C7 (amended). On a reachable store, a metric key that was never created
    gives an absent result and no change to the store. An absent result
    counts as no anomaly: the global metrics add nothing to the list, and a
    path or IP key whose evaluation is absent leaves the rest of the sweep
    exactly as if the key were not there. On an unreachable store the
    evaluation raises ConnectionError, since it only catches the server's
    ResponseError, and so does the whole anomaly sweep, with nothing
    changed. *)
Theorem detect_anomalies_absent_or_fault (E : Env) (metric : string) (s : St) :
  (st_up s = true -> st_keys s !! metric = None ->
     detect_anomalies E metric s = (inr None, s)) /\
  (forall acc, collect None acc = acc) /\
  (forall key rest anomalies top,
     detect_anomalies E key s = (inr None, s) ->
     path_loop E (key :: rest) anomalies top s = path_loop E rest anomalies top s /\
     ip_loop E (key :: rest) anomalies top s = ip_loop E rest anomalies top s) /\
  (st_up s = false ->
     detect_anomalies E metric s = (inl ConnectionError, s) /\
     get_anomalies E s = (inl ConnectionError, s)).
Proof.
  split; [|split; [|split]].
  - intros Hup Hk. unfold detect_anomalies, catch_response, bind, ts_range.
    rewrite (redis_up _ _ Hup). unfold ts_range_cmd. rewrite Hk. simpl.
    by rewrite set_keys_same.
  - done.
  - intros key rest anomalies top Hd. cbn [path_loop ip_loop].
    destruct (is_base_key key); [|done].
    unfold bind. rewrite Hd. done.
  - intros Hdown. split; [by apply detect_anomalies_down|].
    unfold get_anomalies, sweep_collect, bind at 1 2.
    by rewrite (detect_anomalies_down _ _ _ Hdown).
Qed.



(** C8 (as stated, refuted). Two evaluations of one metric in the same
    millisecond do not both write: [metric:avg] is a BLOCK series (the
    default of TS.ADD when it creates the key, and of TS.CREATE at startup),
    so the second TS.ADD at the same timestamp is refused and the
    ResponseError leaves the second evaluation. *)
Lemma detect_anomalies_same_ms_raises :
  let s1 := snd (detect_anomalies env0 "ddos:total_rps" (st_window const_window)) in
  fst (detect_anomalies env0 "ddos:total_rps" (st_window const_window)) =
    inr (Some {| timestamp := 1000; metric := "ddos:total_rps"; value := 0.03;
                 zscore := -1; is_anomaly := false; threshold := 3 |}) /\
  detect_anomalies env0 "ddos:total_rps" s1 = (inl ResponseError, s1).
Proof. split; vm_compute; reflexivity. Qed.

(** C8 (amended). Once the window holds at least 30 samples, and the
    statistics are finite doubles (no overflow, no NaN), evaluation writes
    the mean and the standard deviation it computed as the samples at the
    evaluation timestamp of [metric:avg] and [metric:std], whatever the
    outcome (anomalous or not), provided both series hold only earlier
    samples; every other key, the evaluated series included, is left as it
    was, and no outbound call is made. When [metric:avg] is a BLOCK series
    that already holds a sample at that timestamp (a second evaluation in
    the same millisecond), the write is refused and the ResponseError
    leaves the evaluation, with the store unchanged. *)
Theorem detect_anomalies_baseline_writes (E : Env) (metric : string) (s : St)
  (dp : dup_policy) (pts : list (Z * float)) (ttl : option Z) (sq : list float) (sd : float) :
  let data := ts_window (now_ms E - WINDOW_SIZE * 1000) (now_ms E) pts in
  let values := map snd data in
  let avg := (float_sum E values / float_of_nat (length values))%float in
  st_up s = true ->
  st_keys s !! metric = Some (Entry (RSeries dp pts) ttl) ->
  (MIN_DATA_POINTS <= length data)%nat ->
  squares E avg values = inr sq ->
  py_sqrt (libm_pow E) (float_sum E sq / float_of_nat (length values))%float = Some (inr sd) ->
  PrimFloat.is_finite avg = true -> PrimFloat.is_finite sd = true ->
  (ts_before (st_keys s) (metric ++ ":avg") (now_ms E) = true ->
   ts_before (st_keys s) (metric ++ ":std") (now_ms E) = true ->
   exists r s',
     detect_anomalies E metric s = (inr (Some r), s') /\
     series_at (st_keys s') (metric ++ ":avg") (now_ms E) = Some avg /\
     series_at (st_keys s') (metric ++ ":std") (now_ms E) = Some sd /\
     (forall k, k <> metric ++ ":avg" -> k <> metric ++ ":std" ->
        st_keys s' !! k = st_keys s !! k) /\
     st_keys s' !! metric = st_keys s !! metric /\
     st_calls s' = st_calls s) /\
  (forall pts' ttl',
     st_keys s !! (metric ++ ":avg") = Some (Entry (RSeries Block pts') ttl') ->
     ts_sorted pts' = true -> In (now_ms E) (map fst pts') ->
     detect_anomalies E metric s = (inl ResponseError, s)).
Proof.
  intros data values avg Hup Hk Hlen Hsq Hsd Hfa Hfs.
  rewrite (proj2 (detect_anomalies_series E metric s dp pts ttl Hup Hk) Hlen).
  fold data.
  split.
  - intros Ha Hs.
    rewrite (detect_compute_run E metric (now_ms E) data s sq sd Hup Hsq Hsd Hfa Hfs Ha Hs).
    eexists _, _. split; [reflexivity|]. simpl.
    split; [by apply baseline_avg|].
    split; [by apply baseline_std|].
    split; [intros k H1 H2; by apply baseline_other|].
    split; [|done].
    apply baseline_other; apply not_eq_sym, suffix_neq; discriminate.
  - intros pts' ttl' Hk' Hsort Hin.
    exact (detect_compute_avg_dup E metric (now_ms E) data s sq sd pts' ttl'
             Hup Hsq Hsd Hfa Hk' Hsort Hin).
Qed.



(** C3. A request that gets past the cached check and the rate limiter and
    whose threat intelligence answer has risk_score > 70 makes exactly one
    firewall block call for the IP, stores [blocked:ip] = "threat_intel" with
    a 3600 s expiry, and is answered unverified/threat_intel_blocked; with a
    risk_score of at most 70 (or no answer) no block call is made and the
    blocked registry entry of the IP is not written. *)
Theorem verify_client_threat_block (E : Env) (req : VerificationRequest) (s s1 : St)
  (v : option rval) (count : Z) :
  r_get ("verified:" ++ clientIP req) s = (inr v, s) ->
  truthy v = false ->
  check_rate_limit (clientIP req) s = (inr (false, count), s1) ->
  st_up s1 = true ->
  (forall t, threat_api E (clientIP req) = Some t -> (risk_score t > 70)%R ->
     verify_client E req s =
       (inr (false, "threat_intel_blocked"),
        mkSt (<[("blocked:" ++ clientIP req) := Entry (RText "threat_intel") (Some 3600)]>
                (st_keys s1))
             true
             (st_calls s1 ++ [ThreatLookup (clientIP req);
                              FirewallBlock (clientIP req) 3600]))) /\
  (match threat_api E (clientIP req) with
   | Some t => (risk_score t <= 70)%R
   | None => True
   end ->
   st_calls (snd (verify_client E req s)) = (st_calls s1 ++ [ThreatLookup (clientIP req)])%list /\
   st_keys (snd (verify_client E req s)) !! ("blocked:" ++ clientIP req) =
     st_keys s1 !! ("blocked:" ++ clientIP req)).
Proof.
  intros Hget Hv Hrl Hup1.
  split.
  - intros t Ht Hrisk.
    assert (Hb : Rgtb (risk_score t) 70 = true) by (apply Rgtb_spec; exact Hrisk).
    unfold verify_client. cbv zeta. unfold bind at 1. rewrite Hget, Hv.
    unfold bind at 1. rewrite Hrl. unfold bind at 1. unfold check_threat_intel.
    cbv beta iota. rewrite Ht, Hb.
    unfold bind, add_to_cloudflare_blocklist, r_set, redis, log_call. simpl.
    rewrite Hup1. simpl. unfold set_keys, ret. simpl. by rewrite <- app_assoc.
  - intros Hlow.
    assert (Hb : match threat_api E (clientIP req) with
                 | Some t => Rgtb (risk_score t) 70
                 | None => false
                 end = false).
    { destruct (threat_api E (clientIP req)) as [t|]; [|done].
      apply Rgtb_false. lra. }
    assert (Hne : ("blocked:" ++ clientIP req) <> ("verified:" ++ clientIP req))
      by discriminate.
    unfold verify_client. cbv zeta. unfold bind. rewrite Hget, Hv, Hrl.
    unfold check_threat_intel. cbv beta iota. rewrite Hb.
    destruct (count >? 100); [done|]. destruct (count >? 50); [done|].
    unfold r_set, redis, kv_set. simpl. rewrite Hup1. simpl.
    split; [done|]. by rewrite lookup_insert_ne by (apply not_eq_sym; exact Hne).
Qed.

(** C10. [verify_client] never reads the blocked registry: on two states that
    differ only in [blocked:*] keys it returns the same result and leaves
    states that again differ only there, with the same outbound calls. So an
    IP with a live blocked entry but no verified entry, a low request count
    and no high threat score is marked verified again and answered
    verified/cookie. *)
Theorem verify_client_ignores_blocked (E : Env) (req : VerificationRequest) (s1 s2 : St) :
  st_rel s1 s2 ->
  fst (verify_client E req s1) = fst (verify_client E req s2) /\
  st_rel (snd (verify_client E req s1)) (snd (verify_client E req s2)) /\
  (st_up s1 = true ->
   is_Some (st_keys s1 !! ("blocked:" ++ clientIP req)) ->
   st_keys s1 !! ("verified:" ++ clientIP req) = None ->
   match st_keys s1 !! ("ratelimit:" ++ clientIP req) with
   | None => True
   | Some (Entry (RInt n) _) => n < 50
   | Some _ => False
   end ->
   match threat_api E (clientIP req) with
   | Some t => (risk_score t <= 70)%R
   | None => True
   end ->
   fst (verify_client E req s1) = inr (true, "cookie") /\
   st_keys (snd (verify_client E req s1)) !! ("verified:" ++ clientIP req) =
     Some (Entry (RText "cookie") (Some 3600)) /\
   st_keys (snd (verify_client E req s1)) !! ("blocked:" ++ clientIP req) =
     st_keys s1 !! ("blocked:" ++ clientIP req)).
Proof.
  intros Hrel.
  destruct (verify_client_respects E req s1 s2 Hrel) as [Hr Hs].
  split; [exact Hr|]. split; [exact Hs|].
  intros Hup _ Hver Hrl Hlow.
  assert (Hget : r_get ("verified:" ++ clientIP req) s1 = (inr None, s1)).
  { unfold r_get. rewrite (redis_up _ _ Hup). unfold kv_get. rewrite Hver. simpl.
    by rewrite set_keys_same. }
  assert (Hb : match threat_api E (clientIP req) with
               | Some t => Rgtb (risk_score t) 70
               | None => false
               end = false).
  { destruct (threat_api E (clientIP req)) as [t|]; [|done]. apply Rgtb_false. lra. }
  assert (Hnv : ("blocked:" ++ clientIP req) <> ("verified:" ++ clientIP req)) by discriminate.
  assert (Hnr : ("blocked:" ++ clientIP req) <> ("ratelimit:" ++ clientIP req)) by discriminate.
  assert (Hvr : ("verified:" ++ clientIP req) <> ("ratelimit:" ++ clientIP req)) by discriminate.
  unfold verify_client. cbv zeta. unfold bind. rewrite Hget. cbv beta iota.
  cbn [truthy]. cbv beta iota.
  destruct (st_keys s1 !! ("ratelimit:" ++ clientIP req)) as [[[sv|n|dp pts] ttl]|] eqn:Hk;
    try contradiction.
  - rewrite (check_rate_limit_count _ _ n ttl Hup Hk).
    assert (Hn : (n >=? RATE_LIMIT_MAX_REQUESTS) = false)
      by (unfold RATE_LIMIT_MAX_REQUESTS; rewrite Z.geb_leb; apply Z.leb_gt; lia).
    rewrite Hn. unfold check_threat_intel. cbv beta iota. rewrite Hb.
    assert (H100 : (n + 1 >? 100) = false) by (rewrite Z.gtb_ltb; apply Z.ltb_ge; lia).
    assert (H50 : (n + 1 >? 50) = false) by (rewrite Z.gtb_ltb; apply Z.ltb_ge; lia).
    rewrite H100, H50. unfold r_set, redis, kv_set, log_call. simpl. rewrite Hup. simpl.
    rewrite lookup_insert_eq. split; [done|]. split; [done|].
    rewrite lookup_insert_ne by (apply not_eq_sym; exact Hnv).
    rewrite lookup_insert_ne by (apply not_eq_sym; exact Hnr). done.
  - rewrite (check_rate_limit_fresh _ _ Hup Hk).
    unfold check_threat_intel. cbv beta iota. rewrite Hb.
    unfold r_set, redis, kv_set, log_call. simpl. rewrite Hup. simpl.
    rewrite lookup_insert_eq. split; [done|]. split; [done|].
    rewrite lookup_insert_ne by (apply not_eq_sym; exact Hnv).
    rewrite lookup_insert_ne by (apply not_eq_sym; exact Hnr). done.
Qed.

(** C4. In a sweep that completes, the returned list is exactly what the
    collection phase gathered, and every entry in it is anomalous: blocking
    removes nothing. The auto-block phase makes one firewall block call
    (3600 s) for each anomalous IP-scoped result whose observed value
    exceeds 100, in order, and no other call. It sets [blocked:<ip>] to
    "auto_anomaly" with a 3600 s expiry for exactly those results, and
    leaves every other blocked-registry key as it was before the sweep.
    Path-scoped and global anomalies, and IP-scoped ones at 100 or less,
    block nothing. The IP is taken from the key as the code does it:
    [key.split(":")[-1]]. *)
Theorem get_anomalies_auto_block (E : Env) (s s' : St)
  (anomalies : list AnomalyDetectionResult) :
  get_anomalies E s = (inr anomalies, s') ->
  Forall (fun a => is_anomaly a = true) anomalies /\
  (exists s1, sweep_collect E s =
     (inr (anomalies, map ip_target (List.filter is_ip_result anomalies)), s1)) /\
  st_calls s' = (st_calls s ++
    map (fun a => FirewallBlock (ip_of_key (metric a)) 3600) (auto_block_hot anomalies))%list /\
  (forall k, blocked_key k = true ->
     st_keys s' !! k =
       if existsb (fun a => String.eqb k ("blocked:" ++ ip_of_key (metric a)))
                  (auto_block_hot anomalies)
       then Some (Entry (RText "auto_anomaly") (Some 3600))
       else st_keys s !! k).
Proof.
  intros Hrun. unfold get_anomalies, bind in Hrun.
  destruct (st_up s) eqn:Hup0.
  2:{ pose proof (sweep_collect_down E s Hup0) as Hd.
      destruct (sweep_collect E s) as [[e|x] s1]; simpl in Hd; [discriminate|discriminate]. }
  pose proof (sweep_collect_touches E s) as Ht.
  destruct (sweep_collect E s) as [[e|[anoms top]] s1] eqn:Hs; [discriminate|].
  simpl in Ht. destruct Ht as (Hc & Hu & Hk).
  destruct (sweep_collect_inv _ _ _ _ _ Hs) as [Ha Htop].
  rewrite Hup0 in Hu.
  rewrite (auto_block_run E top s1 Hu) in Hrun. simpl in Hrun.
  injection Hrun as <- <-.
  split; [exact Ha|]. split; [exists s1; by rewrite <- Htop|].
  split.
  - simpl. rewrite Hc, Htop, auto_block_top_calls. reflexivity.
  - intros k Hb. simpl. rewrite auto_block_keys_lookup, Htop, auto_block_top_exists.
    destruct (existsb _ _); [reflexivity|]. apply Hk. rewrite Hb. discriminate.
Qed.

(** C5 (code bug). The cap holds for one request at a time
    ([check_rate_limit_count]), but the counter is read with GET and then
    raised with INCR in a separate await. Two concurrent requests from one
    client, with the stored counter at 999, both read 999 and are both
    admitted with count 1000, and the stored counter becomes 1001: above
    RATE_LIMIT_MAX_REQUESTS. *)
Lemma concurrent_check_rate_limit_overshoot :
  let s0 := mkSt {[ "ratelimit:203.0.113.7" := Entry (RInt 999) (Some 60) ]} true [] in
  fst (concurrent_check_rate_limit "203.0.113.7" 2 s0) = inr [(false, 1000); (false, 1000)] /\
  st_keys (snd (concurrent_check_rate_limit "203.0.113.7" 2 s0)) !! "ratelimit:203.0.113.7"
    = Some (Entry (RInt 1001) (Some 60)) /\
  1001 > RATE_LIMIT_MAX_REQUESTS.
Proof. vm_compute. split; [reflexivity|split; reflexivity]. Qed.

(** ** Instances of the claims *)

Lemma verify_client_cached_first_witness :
  verify_client env0 req0 st_verified = (inr (true, "cached"), st_verified).
Proof.
  apply (verify_client_cached_first env0 req0 st_verified "cookie" (Some 3600));
    [reflexivity|reflexivity|discriminate].
Defined.

Lemma detect_anomalies_min_points_witness :
  detect_anomalies env0 "ddos:total_rps" (st_series 10 1%float) =
    (inr None, st_series 10 1%float).
Proof.
  apply (proj1 (detect_anomalies_min_points env0 "ddos:total_rps" (st_series 10 1%float)
                  Block (samples 10 1000000 1%float) None eq_refl eq_refl)).
  apply Nat.ltb_lt. vm_compute. reflexivity.
Defined.

Lemma detect_anomalies_absent_or_fault_witness :
  detect_anomalies env0 "ddos:error_rate" st_empty = (inr None, st_empty) /\
  get_anomalies env0 st_down = (inl ConnectionError, st_down).
Proof.
  split.
  - apply (proj1 (detect_anomalies_absent_or_fault env0 "ddos:error_rate" st_empty));
      reflexivity.
  - apply (proj2 (proj2 (proj2
             (detect_anomalies_absent_or_fault env0 "ddos:total_rps" st_down))));
      reflexivity.
Defined.


Lemma detect_anomalies_baseline_writes_witness :
  exists r s',
    detect_anomalies env0 "ddos:total_rps" (st_series 30 1%float) = (inr (Some r), s') /\
    series_at (st_keys s') "ddos:total_rps:avg" 1000000 = Some 1%float /\
    series_at (st_keys s') "ddos:total_rps:std" 1000000 = Some 0%float /\
    st_calls s' = [].
Proof.
  destruct (proj1 (detect_anomalies_baseline_writes env0 "ddos:total_rps"
              (st_series 30 1%float) Block (samples 30 1000000 1%float) None
              (repeat 0%float 30) 0%float
              eq_refl eq_refl
              ltac:(apply Nat.leb_le; vm_compute; reflexivity)
              ltac:(vm_compute; reflexivity) ltac:(vm_compute; reflexivity)
              ltac:(vm_compute; reflexivity) ltac:(vm_compute; reflexivity))
              eq_refl eq_refl)
    as (r & s' & Hd & Ha & Hs & _ & _ & Hc).
  exists r, s'. split; [exact Hd|]. split; [|split; [|exact Hc]].
  - etransitivity; [exact Ha|]. vm_compute. reflexivity.
  - etransitivity; [exact Hs|]. reflexivity.
Defined.


Lemma verify_client_threat_block_witness :
  fst (verify_client env_hot req0 st_empty) = inr (false, "threat_intel_blocked") /\
  st_calls (snd (verify_client env_hot req0 st_empty)) =
    [ThreatLookup "203.0.113.7"; FirewallBlock "203.0.113.7" 3600] /\
  st_keys (snd (verify_client env_hot req0 st_empty)) !! "blocked:203.0.113.7" =
    Some (Entry (RText "threat_intel") (Some 3600)).
Proof.
  rewrite (proj1 (verify_client_threat_block env_hot req0 st_empty st_one_request None 1
                    eq_refl eq_refl ltac:(vm_compute; reflexivity) eq_refl)
             threat_hot eq_refl ltac:(simpl; lra)).
  split; [reflexivity|]. split; reflexivity.
Defined.

Lemma verify_client_ignores_blocked_witness :
  fst (verify_client env0 req0 st_blocked) = fst (verify_client env0 req0 st_empty) /\
  fst (verify_client env0 req0 st_blocked) = inr (true, "cookie") /\
  st_keys (snd (verify_client env0 req0 st_blocked)) !! "blocked:203.0.113.7" =
    Some (Entry (RText "auto_anomaly") (Some 3600)).
Proof.
  assert (Hrel : st_rel st_blocked st_empty).
  { split; [reflexivity|]. split; [reflexivity|]. intros k Hk.
    unfold st_blocked, st_empty. cbn [st_keys].
    destruct (String.eqb_spec k "blocked:203.0.113.7") as [->|Hne];
      [vm_compute in Hk; discriminate|].
    rewrite lookup_singleton_ne by congruence. reflexivity. }
  destruct (verify_client_ignores_blocked env0 req0 st_blocked st_empty Hrel)
    as (H1 & _ & H3).
  destruct (H3 eq_refl ltac:(eexists; reflexivity) eq_refl I I) as (H4 & _ & H5).
  split; [exact H1|]. split; [exact H4|]. exact H5.
Defined.

Lemma get_anomalies_auto_block_witness :
  exists anomalies s',
    get_anomalies env0 st_two_ips = (inr anomalies, s') /\
    map metric anomalies = ["ddos:ip:A"; "ddos:ip:B"] /\
    Forall (fun a => is_anomaly a = true) anomalies /\
    st_calls s' = [FirewallBlock "A" 3600] /\
    st_keys s' !! "blocked:A" = Some (Entry (RText "auto_anomaly") (Some 3600)) /\
    st_keys s' !! "blocked:B" = None.
Proof.
  destruct (get_anomalies env0 st_two_ips) as [r s'] eqn:H.
  assert (Hr : r = fst (get_anomalies env0 st_two_ips)) by (rewrite H; reflexivity).
  vm_compute in Hr. subst r.
  destruct (get_anomalies_auto_block env0 st_two_ips s' _ H) as (Ha & _ & Hc & Hk).
  eexists _, s'. split; [reflexivity|]. split; [reflexivity|]. split; [exact Ha|].
  split; [rewrite Hc; vm_compute; reflexivity|].
  split; [rewrite (Hk "blocked:A" eq_refl); vm_compute; reflexivity|].
  rewrite (Hk "blocked:B" eq_refl). vm_compute. reflexivity.
Defined.

(** ** Further properties of the code *)

(** *** verify_client: the rate-limited and progressive branches *)

Lemma check_rate_limit_admit (ip : string) (s : St) (n : Z) :
  st_up s = true ->
  match st_keys s !! ("ratelimit:" ++ ip) with
  | None => n = 0
  | Some (Entry (RInt c) _) => c = n
  | Some _ => False
  end ->
  n < RATE_LIMIT_MAX_REQUESTS ->
  check_rate_limit ip s =
    (inr (false, n + 1),
     set_keys (<[("ratelimit:" ++ ip) := Entry (RInt (n + 1)) (Some RATE_LIMIT_WINDOW)]>
                 (st_keys s)) s).
Proof.
  intros Hup Hk Hn.
  destruct (st_keys s !! ("ratelimit:" ++ ip)) as [[[sv|c|dp pts] ttl]|] eqn:Hl;
    try contradiction.
  - subst c. rewrite (check_rate_limit_count _ _ n ttl Hup Hl).
    assert (Hge : (n >=? RATE_LIMIT_MAX_REQUESTS) = false)
      by (rewrite Z.geb_leb; apply Z.leb_gt; lia).
    by rewrite Hge.
  - subst n. by rewrite (check_rate_limit_fresh _ _ Hup Hl).
Qed.

Lemma r_get_absent (k : string) (s : St) :
  st_up s = true -> st_keys s !! k = None -> r_get k s = (inr None, s).
Proof.
  intros Hup Hk. unfold r_get. rewrite (redis_up _ _ Hup). unfold kv_get. rewrite Hk.
  simpl. by rewrite set_keys_same.
Qed.

(** A client whose stored counter has reached RATE_LIMIT_MAX_REQUESTS and who
    has no verified entry is answered unverified/rate_limited: the counter is
    not raised, nothing is written and the threat intelligence service is not
    called. *)
Theorem verify_client_rate_limited (E : Env) (req : VerificationRequest) (s : St)
  (n : Z) (ttl : option Z) :
  st_up s = true ->
  st_keys s !! ("verified:" ++ clientIP req) = None ->
  st_keys s !! ("ratelimit:" ++ clientIP req) = Some (Entry (RInt n) ttl) ->
  RATE_LIMIT_MAX_REQUESTS <= n ->
  verify_client E req s = (inr (false, "rate_limited"), s).
Proof.
  intros Hup Hver Hk Hn.
  unfold verify_client. cbv zeta. unfold bind. rewrite (r_get_absent _ _ Hup Hver).
  cbv beta iota. cbn [truthy]. cbv beta iota.
  rewrite (check_rate_limit_count _ _ n ttl Hup Hk).
  assert (Hge : (n >=? RATE_LIMIT_MAX_REQUESTS) = true)
    by (rewrite Z.geb_leb; apply Z.leb_le; lia).
  by rewrite Hge.
Qed.

(** Below the limit, with no verified entry and no threat score above 70,
    the decision depends on the count after the increment: above 100 a
    CAPTCHA is required, above 50 a JavaScript challenge, otherwise the
    client is verified by cookie and a verified entry (3600 s) is stored.
    The counter is raised by one with a 60 s expiry, and the only outbound
    call is the threat lookup. *)
Theorem verify_client_progressive (E : Env) (req : VerificationRequest) (s : St) (n : Z) :
  st_up s = true ->
  st_keys s !! ("verified:" ++ clientIP req) = None ->
  match st_keys s !! ("ratelimit:" ++ clientIP req) with
  | None => n = 0
  | Some (Entry (RInt c) _) => c = n
  | Some _ => False
  end ->
  n < RATE_LIMIT_MAX_REQUESTS ->
  match threat_api E (clientIP req) with
  | Some t => (risk_score t <= 70)%R
  | None => True
  end ->
  fst (verify_client E req s) =
    inr (if n + 1 >? 100 then (false, "captcha_required")
         else if n + 1 >? 50 then (false, "js_challenge")
         else (true, "cookie")) /\
  st_keys (snd (verify_client E req s)) !! ("ratelimit:" ++ clientIP req) =
    Some (Entry (RInt (n + 1)) (Some RATE_LIMIT_WINDOW)) /\
  st_keys (snd (verify_client E req s)) !! ("verified:" ++ clientIP req) =
    (if n + 1 >? 50 then None else Some (Entry (RText "cookie") (Some 3600))) /\
  st_calls (snd (verify_client E req s)) = (st_calls s ++ [ThreatLookup (clientIP req)])%list.
Proof.
  intros Hup Hver Hk Hn Hlow.
  assert (Hb : match threat_api E (clientIP req) with
               | Some t => Rgtb (risk_score t) 70
               | None => false
               end = false).
  { destruct (threat_api E (clientIP req)) as [t|]; [|done]. apply Rgtb_false. lra. }
  assert (Hvr : ("verified:" ++ clientIP req) <> ("ratelimit:" ++ clientIP req))
    by discriminate.
  unfold verify_client. cbv zeta. unfold bind. rewrite (r_get_absent _ _ Hup Hver).
  cbv beta iota. cbn [truthy]. cbv beta iota.
  rewrite (check_rate_limit_admit _ _ n Hup Hk Hn).
  unfold check_threat_intel. cbv beta iota. rewrite Hb.
  destruct (n + 1 >? 100) eqn:H100; simpl.
  - assert (H50 : (n + 1 >? 50) = true).
    { rewrite Z.gtb_ltb in *. apply Z.ltb_lt in H100. apply Z.ltb_lt. lia. }
    rewrite H50, lookup_insert_eq, lookup_insert_ne by congruence. by rewrite Hver.
  - destruct (n + 1 >? 50); simpl.
    + rewrite lookup_insert_eq, lookup_insert_ne by congruence. by rewrite Hver.
    + unfold r_set, redis, kv_set. simpl. rewrite Hup. simpl.
      rewrite lookup_insert_ne by congruence. rewrite !lookup_insert_eq. done.
Qed.

(** *** add_mitigation: the block and challenge branches *)



Lemma verify_client_rate_limited_witness :
  verify_client env0 req0 st_limited = (inr (false, "rate_limited"), st_limited).
Proof.
  apply (verify_client_rate_limited env0 req0 st_limited 1000 (Some RATE_LIMIT_WINDOW));
    [reflexivity | reflexivity | reflexivity | unfold RATE_LIMIT_MAX_REQUESTS; lia].
Defined.

Lemma verify_client_progressive_witness :
  fst (verify_client env0 req0 st_sixty) = inr (false, "js_challenge").
Proof.
  destruct (verify_client_progressive env0 req0 st_sixty 60) as [H _];
    [reflexivity | reflexivity | reflexivity | unfold RATE_LIMIT_MAX_REQUESTS; lia
    | simpl; exact I | ].
  rewrite H. reflexivity.
Defined.



(** *** startup_event *)

Lemma absent_prefix_insert (m : gmap string entry) (k : string) (e : entry)
  (rest : list string) :
  ~ In k rest -> absent_prefix (<[k := e]> m) rest = absent_prefix m rest.
Proof.
  induction rest as [|k' rest IH]; intros Hn; simpl; [done|].
  rewrite lookup_insert_ne by (intros ->; apply Hn; left; done).
  destruct (m !! k'); [done|]. f_equal. apply IH. intros H. apply Hn. by right.
Qed.

Lemma create_all_run (keys : list string) :
  NoDup keys -> forall s, st_up s = true ->
  exists r m',
    create_all keys s = (r, set_keys m' s) /\
    (r = inr tt \/ r = inl ResponseError) /\
    forall k, m' !! k =
      if existsb (String.eqb k) (absent_prefix (st_keys s) keys)
      then Some (Entry (RSeries Block []) None) else st_keys s !! k.
Proof.
  induction keys as [|k rest IH]; intros Hnd s Hup.
  - exists (inr tt), (st_keys s). simpl. rewrite set_keys_same.
    split; [done|]. split; [by left|]. done.
  - inversion Hnd as [|? ? Hnin Hnd']; subst.
    cbn [create_all]. unfold bind, ts_create. rewrite (redis_up _ _ Hup).
    unfold ts_create_cmd. cbn [absent_prefix].
    destruct (st_keys s !! k) eqn:Hk; simpl.
    + exists (inl ResponseError), (st_keys s). rewrite set_keys_same.
      split; [done|]. split; [by right|]. done.
    + set (s1 := set_keys (<[k := Entry (RSeries Block []) None]> (st_keys s)) s).
      destruct (IH Hnd' s1 Hup) as [r [m' [Hrun [Hr Hm]]]].
      rewrite Hrun. exists r, m'. split.
      { subst s1. by rewrite set_keys_set_keys. }
      split; [done|]. intros k'.
      rewrite Hm. subst s1. simpl.
      rewrite absent_prefix_insert by (rewrite <- list_elem_of_In; done).
      destruct (String.eqb k' k) eqn:Heq.
      * apply String.eqb_eq in Heq. subst k'. rewrite lookup_insert_eq.
        by destruct (existsb _ _).
      * apply String.eqb_neq in Heq. rewrite lookup_insert_ne by congruence.
        simpl. done.
Qed.

Lemma startup_keys_nodup : NoDup startup_keys.
Proof. unfold startup_keys. repeat constructor; set_solver. Qed.

(** On a reachable store, startup creates, as empty series and in order,
    the dashboard series that come before the first one that already
    exists; that one and every later one are left alone, and the error is
    only logged. Nothing else changes and no call is made. So once
    [ddos:total_rps] exists (the middleware creates it on the first
    request), a restart creates none of the others. On an unreachable store
    the connection error is not caught. *)
Theorem startup_event_creates (s : St) :
  (st_up s = true ->
     fst (startup_event s) = inr tt /\
     st_up (snd (startup_event s)) = true /\
     st_calls (snd (startup_event s)) = st_calls s /\
     forall k, st_keys (snd (startup_event s)) !! k =
       if existsb (String.eqb k) (absent_prefix (st_keys s) startup_keys)
       then Some (Entry (RSeries Block []) None) else st_keys s !! k) /\
  (st_up s = false -> startup_event s = (inl ConnectionError, s)).
Proof.
  split.
  - intros Hup.
    destruct (create_all_run startup_keys startup_keys_nodup s Hup)
      as [r [m' [Hrun [Hr Hm]]]].
    unfold startup_event, catch_response. rewrite Hrun.
    destruct Hr as [-> | ->]; simpl; unfold ret; simpl; auto.
  - intros Hdown. unfold startup_event, catch_response. cbn [create_all startup_keys].
    unfold bind, ts_create. rewrite (redis_down _ _ Hdown). done.
Qed.

Lemma startup_event_creates_witness :
  fst (startup_event st_empty) = inr tt /\
  st_keys (snd (startup_event st_empty)) !! "ddos:error_rate:std" =
    Some (Entry (RSeries Block []) None).
Proof.
  destruct (startup_event_creates st_empty) as [H _].
  destruct (H eq_refl) as [H1 [_ [_ H2]]].
  split; [exact H1|]. rewrite H2. reflexivity.
Defined.

(** *** track_requests and record_metrics *)

Lemma touches_catch_all {A} (W : string -> Prop) (m h : M A) :
  touches_only W m -> touches_only W h -> touches_only W (catch_all m h).
Proof.
  intros Hm Hh s. unfold catch_all. destruct (Hm s) as (Hc & Hu & Hk).
  destruct (m s) as [[e|a] s1]; simpl in *; [|done].
  destruct (Hh s1) as (Hc' & Hu' & Hk').
  split; [congruence|]. split; [congruence|].
  intros k Hn. rewrite Hk' by done. by apply Hk.
Qed.

Lemma touches_ts_add_sum (k : string) (t : Z) (v : float) :
  touches_only (fun k' => k' = k) (ts_add_sum k t v).
Proof.
  apply touches_redis. intros m k' Hk'. apply ts_add_cmd_other. exact Hk'.
Qed.

Lemma touches_ts_create (k : string) :
  touches_only (fun k' => k' = k) (ts_create k).
Proof.
  apply touches_redis. intros m k' Hk'. unfold ts_create_cmd.
  destruct (m !! k); simpl; [done|]. by rewrite lookup_insert_ne.
Qed.

Lemma record_metrics_touches client_ip path t rt sc :
  touches_only (metric_keys client_ip path) (record_metrics client_ip path t rt sc).
Proof.
  unfold record_metrics, metric_keys. cbv zeta.
  repeat apply touches_bind; intros;
    repeat first [ apply touches_catch | apply touches_bind; intros ];
    try (eapply touches_weaken; [|apply touches_ts_add_sum]; simpl; tauto);
    try (eapply touches_weaken; [|apply touches_ts_create]; simpl; tauto);
    try (eapply touches_weaken; [|apply touches_ts_add]; simpl; tauto).
Qed.

Lemma catch_all_ret_tt (m : M unit) (s : St) : fst (catch_all m (ret tt) s) = inr tt.
Proof. unfold catch_all. destruct (m s) as [[e|[]] s1]; done. Qed.

(** The middleware is transparent to the request: it returns what the
    handler returned, an exception of the handler propagates with nothing
    recorded, and a failure while recording the metrics (an unreachable
    store, a key of the wrong type) is swallowed. Besides the handler's own
    effects it writes only the five metric series of the request and makes
    no outbound call. *)
Theorem track_requests_transparent {A} (E : Env) (request : HttpRequest)
  (response_time : float) (call_next : M A) (status_code : A -> Z) (s : St) :
  let client_ip := match client_host request with Some h => h | None => "unknown" end in
  let s' := snd (track_requests E request response_time call_next status_code s) in
  fst (track_requests E request response_time call_next status_code s) = fst (call_next s) /\
  st_calls s' = st_calls (snd (call_next s)) /\
  st_up s' = st_up (snd (call_next s)) /\
  (forall k, ~ metric_keys client_ip (url_path request) k ->
     st_keys s' !! k = st_keys (snd (call_next s)) !! k) /\
  (forall e, fst (call_next s) = inl e -> s' = snd (call_next s)).
Proof.
  intros client_ip s'. subst s'. unfold track_requests. cbv zeta. unfold bind.
  destruct (call_next s) as [[e|r] s1]; simpl.
  - split; [done|]. split; [done|]. split; [done|]. split; [done|]. done.
  - pose proof (catch_all_ret_tt
      (record_metrics client_ip (url_path request) (now_ms E) response_time (status_code r))
      s1) as Hr.
    pose proof (touches_catch_all (metric_keys client_ip (url_path request)) _ (ret tt)
                  (record_metrics_touches client_ip (url_path request) (now_ms E)
                     response_time (status_code r))
                  (touches_ret _ tt) s1) as (Hc & Hu & Hk).
    unfold client_ip in *.
    destruct (catch_all _ (ret tt) s1) as [[e|[]] s2]; simpl in *; [discriminate|].
    split; [done|]. split; [done|]. split; [done|]. split; [exact Hk|].
    intros e He. discriminate.
Qed.

Lemma bind_inr {A B} (m : M A) (k : A -> M B) (s s' : St) (a : A) :
  m s = (inr a, s') -> bind m k s = k a s'.
Proof. intros H. unfold bind. by rewrite H. Qed.

Lemma catch_response_inr {A} (m h : M A) (s s' : St) (a : A) :
  m s = (inr a, s') -> catch_response m h s = (inr a, s').
Proof. intros H. unfold catch_response. by rewrite H. Qed.

Lemma redis_ts_add_ok (dp : dup_policy) (k : string) (t : Z) (v : float) (s : St) :
  st_up s = true -> PrimFloat.is_finite v = true -> ts_before (st_keys s) k t = true ->
  redis (ts_add_cmd dp k t v) s = (inr tt, set_keys (snd (ts_add_cmd dp k t v (st_keys s))) s).
Proof.
  intros Hup Hv Hb. unfold redis. rewrite Hup.
  pose proof (ts_add_cmd_ok dp k t v (st_keys s) Hv Hb) as H.
  destruct (ts_add_cmd dp k t v (st_keys s)) as [r m]. simpl in H. by subst r.
Qed.

(** The five writes of [record_metrics] when every metric series takes a new
    sample at [t]. *)
Lemma record_metrics_run (client_ip path : string) (t : Z) (rt : float) (sc : Z) (s : St) :
  let pk := "ddos:path:" ++ path in
  let ik := "ddos:ip:" ++ client_ip in
  let e := float_of_Z (if sc >=? 400 then 1 else 0) in
  let m1 := snd (ts_add_cmd Sum "ddos:total_rps" t 1 (st_keys s)) in
  let m2 := snd (ts_add_cmd Sum pk t 1 m1) in
  let m3 := snd (ts_add_cmd Sum ik t 1 m2) in
  let m4 := snd (ts_add_cmd Block "ddos:response_time" t rt m3) in
  let m5 := snd (ts_add_cmd Sum "ddos:error_rate" t e m4) in
  st_up s = true -> PrimFloat.is_finite rt = true ->
  ts_before (st_keys s) "ddos:total_rps" t = true ->
  ts_before (st_keys s) pk t = true ->
  ts_before (st_keys s) ik t = true ->
  ts_before (st_keys s) "ddos:response_time" t = true ->
  ts_before (st_keys s) "ddos:error_rate" t = true ->
  record_metrics client_ip path t rt sc s = (inr tt, set_keys m5 s).
Proof.
  intros pk ik e m1 m2 m3 m4 m5 Hup Hrt H1 H2 H3 H4 H5.
  assert (Hf1 : PrimFloat.is_finite 1 = true) by reflexivity.
  assert (Hfe : PrimFloat.is_finite e = true) by (subst e; by destruct (sc >=? 400)).
  unfold record_metrics, ts_add_sum, ts_add. cbv zeta. fold pk ik e.
  erewrite bind_inr; [|exact (redis_ts_add_ok Sum _ t 1 s Hup Hf1 H1)].
  fold m1.
  erewrite bind_inr.
  2:{ apply catch_response_inr. apply redis_ts_add_ok; [exact Hup|exact Hf1|].
      cbn [st_keys set_keys]. subst m1. rewrite ts_before_other by (subst pk; discriminate).
      exact H2. }
  cbn [st_keys set_keys]. fold m2. rewrite set_keys_set_keys.
  erewrite bind_inr.
  2:{ apply catch_response_inr. apply redis_ts_add_ok; [exact Hup|exact Hf1|].
      cbn [st_keys set_keys]. subst m2 m1.
      rewrite !ts_before_other by (subst pk ik; discriminate). exact H3. }
  cbn [st_keys set_keys]. fold m3. rewrite set_keys_set_keys.
  erewrite bind_inr.
  2:{ apply redis_ts_add_ok; [exact Hup|exact Hrt|].
      cbn [st_keys set_keys]. subst m3 m2 m1.
      rewrite !ts_before_other by (subst pk ik; discriminate). exact H4. }
  cbn [st_keys set_keys]. fold m4. rewrite set_keys_set_keys.
  rewrite redis_ts_add_ok; [|exact Hup|exact Hfe|].
  - cbn [st_keys set_keys]. fold m5. by rewrite set_keys_set_keys.
  - cbn [st_keys set_keys]. subst m4 m3 m2 m1.
    rewrite !ts_before_other by (subst pk ik; discriminate). exact H5.
Qed.

(** On a reachable store where none of the five metric series of the
    request holds a sample at or after the current time, a request that the
    handler answers is recorded with one new sample at the current time in
    each: 1 in the total, path and client series, the response time, and 1
    or 0 in the error series (status 400 or more, or less). A request
    without a client address is counted under [ddos:ip:unknown]. When
    [ddos:total_rps] is a BLOCK series (as startup creates it: the SUM
    policy of the later TS.ADD calls applies only to keys they create) that
    already holds a sample at the current millisecond, the TS.ADD is
    refused, the error is swallowed, and none of the five series is
    written. *)
Theorem track_requests_records {A} (E : Env) (request : HttpRequest)
  (response_time : float) (call_next : M A) (status_code : A -> Z) (s s1 : St) (r : A) :
  let t := now_ms E in
  let client_ip := match client_host request with Some h => h | None => "unknown" end in
  let path_key := "ddos:path:" ++ url_path request in
  let ip_key := "ddos:ip:" ++ client_ip in
  call_next s = (inr r, s1) ->
  st_up s1 = true ->
  (PrimFloat.is_finite response_time = true ->
   ts_before (st_keys s1) "ddos:total_rps" t = true ->
   ts_before (st_keys s1) path_key t = true ->
   ts_before (st_keys s1) ip_key t = true ->
   ts_before (st_keys s1) "ddos:response_time" t = true ->
   ts_before (st_keys s1) "ddos:error_rate" t = true ->
   let m := st_keys (snd (track_requests E request response_time call_next status_code s)) in
   fst (track_requests E request response_time call_next status_code s) = inr r /\
   series_at m "ddos:total_rps" t = Some 1%float /\
   series_at m path_key t = Some 1%float /\
   series_at m ip_key t = Some 1%float /\
   series_at m "ddos:response_time" t = Some response_time /\
   series_at m "ddos:error_rate" t =
     Some (float_of_Z (if status_code r >=? 400 then 1 else 0))) /\
  (forall pts ttl,
     st_keys s1 !! "ddos:total_rps" = Some (Entry (RSeries Block pts) ttl) ->
     ts_sorted pts = true -> In t (map fst pts) ->
     track_requests E request response_time call_next status_code s = (inr r, s1)).
Proof.
  intros t client_ip path_key ip_key Hcall Hup. split.
  - intros Hrt H1 H2 H3 H4 H5 m. subst m.
    unfold track_requests. cbv zeta. fold client_ip. unfold bind. rewrite Hcall.
    unfold catch_all.
    rewrite (record_metrics_run client_ip (url_path request) (now_ms E) response_time
               (status_code r) s1 Hup Hrt H1 H2 H3 H4 H5).
    cbn [fst snd st_keys set_keys ret].
    assert (Hf1 : PrimFloat.is_finite 1 = true) by reflexivity.
    split; [done|].
    split; [|split; [|split; [|split]]].
    + do 4 (rewrite series_at_other by discriminate).
      by apply series_at_ts_add.
    + do 3 (rewrite series_at_other by (subst path_key; discriminate)).
      apply series_at_ts_add; [exact Hf1|].
      rewrite ts_before_other by (subst path_key; discriminate). exact H2.
    + do 2 (rewrite series_at_other by (subst ip_key; discriminate)).
      apply series_at_ts_add; [exact Hf1|].
      rewrite !ts_before_other by (subst ip_key path_key; discriminate). exact H3.
    + rewrite series_at_other by discriminate.
      apply series_at_ts_add; [exact Hrt|].
      rewrite !ts_before_other by (subst ip_key path_key; discriminate). exact H4.
    + apply series_at_ts_add; [by destruct (status_code r >=? 400)|].
      rewrite !ts_before_other by (subst ip_key path_key; discriminate). exact H5.
  - intros pts ttl Hk Hsort Hin.
    unfold track_requests. cbv zeta. unfold bind at 1. rewrite Hcall.
    assert (Hd : ts_add_sum "ddos:total_rps" (now_ms E) 1 s1 = (inl ResponseError, s1)).
    { unfold ts_add_sum, redis. rewrite Hup.
      rewrite (ts_add_cmd_dup Sum "ddos:total_rps" (now_ms E) 1 (st_keys s1) pts ttl
                 eq_refl Hk Hsort Hin).
      by rewrite set_keys_same. }
    unfold catch_all, record_metrics, bind. cbv beta. rewrite Hd.
    reflexivity.
Qed.

Lemma track_requests_records_witness :
  series_at (st_keys (snd (track_requests env0 http0 0.25 (ret 503) (fun c => c) st_empty)))
    "ddos:error_rate" 1000000 = Some 1%float /\
  track_requests env0 http0 0.25 (ret 503) (fun c => c) st_total_dup = (inr 503, st_total_dup).
Proof.
  split.
  - pose proof (track_requests_records env0 http0 0.25 (ret 503) (fun c => c)
                  st_empty st_empty 503 eq_refl eq_refl) as [H _].
    destruct (H eq_refl eq_refl eq_refl eq_refl eq_refl eq_refl) as [_ [_ [_ [_ [_ He]]]]].
    etransitivity; [exact He|]. reflexivity.
  - pose proof (track_requests_records env0 http0 0.25 (ret 503) (fun c => c)
                  st_total_dup st_total_dup 503 eq_refl eq_refl) as [_ H].
    apply (H [(1000000, 1%float)] None); [reflexivity|reflexivity|left; reflexivity].
Defined.

(** *** get_metrics *)

Lemma touches_ts_range_agg (W : string -> Prop) agg bucket k from to :
  touches_only W (ts_range_agg agg bucket k from to).
Proof.
  apply touches_redis. intros m k' _. unfold ts_range_agg_cmd.
  by destruct (m !! k) as [[[] ?]|].
Qed.

Lemma touches_r_get (W : string -> Prop) (k : string) : touches_only W (r_get k).
Proof. apply touches_redis. intros m k' _. unfold kv_get. by destruct (m !! k) as [[[] ?]|]. Qed.

Lemma volume_loop_touches (W : string -> Prop) prefix keys start_time current_time :
  forall values, touches_only W (volume_loop prefix keys start_time current_time values).
Proof.
  induction keys as [|key rest IH]; intros values; simpl; [apply touches_ret|].
  destruct (is_base_key key); [|apply IH].
  apply touches_bind; [|intros; apply IH].
  apply touches_catch; [|apply touches_ret].
  apply touches_bind; [apply touches_ts_range_agg|]. intros; apply touches_ret.
Qed.

Lemma blocked_loop_touches (W : string -> Prop) keys :
  forall acc, touches_only W (blocked_loop keys acc).
Proof.
  induction keys as [|key rest IH]; intros acc; simpl; [apply touches_ret|].
  apply touches_bind; [apply touches_r_get|]. intros; apply IH.
Qed.

Lemma get_metrics_touches (E : Env) : touches_only (fun _ => False) (get_metrics E).
Proof.
  unfold get_metrics. cbv zeta.
  repeat (apply touches_bind; intros);
    first [ apply touches_catch; [|apply touches_ret];
            apply touches_bind; [apply touches_ts_range_agg | intros; apply touches_ret]
          | apply touches_scan | apply volume_loop_touches | apply blocked_loop_touches
          | apply touches_ret ].
Qed.

Lemma touches_nothing_state {A} (m : M A) (s : St) :
  touches_only (fun _ => False) m -> snd (m s) = s.
Proof.
  intros Hm. destruct (Hm s) as (Hc & Hu & Hk).
  destruct (snd (m s)) as [keys up calls] eqn:Hs. destruct s as [keys0 up0 calls0].
  simpl in *. subst. f_equal. apply map_eq. intros k. apply Hk. tauto.
Qed.

(** The dashboard endpoint only reads: whatever the state of the store,
    and whether it returns or raises, it leaves every key as it was and
    makes no outbound call. When the store cannot be reached, the
    connection error of its first range query is not caught and leaves the
    endpoint. *)
Theorem get_metrics_read_only (E : Env) (s : St) :
  snd (get_metrics E s) = s /\
  (st_up s = false -> get_metrics E s = (inl ConnectionError, s)).
Proof.
  split.
  - apply touches_nothing_state, get_metrics_touches.
  - intros Hdown. unfold get_metrics. cbv zeta.
    unfold bind at 1. unfold catch_response at 1. unfold bind at 1.
    unfold ts_range_agg at 1. rewrite (redis_down _ _ Hdown). done.
Qed.

Lemma get_metrics_read_only_witness :
  get_metrics env0 st_down = (inl ConnectionError, st_down).
Proof.
  destruct (get_metrics_read_only env0 st_down) as [_ H]. apply H. reflexivity.
Defined.

Lemma prefix_self_app (p r : string) : String.prefix p (p ++ r) = true.
Proof.
  induction p as [|c p IH]; simpl; [by destruct r|].
  destruct (ascii_dec c c); [exact IH|congruence].
Qed.

Lemma substring_all (m : nat) (b : string) :
  (String.length b <= m)%nat -> substring 0 m b = b.
Proof.
  revert m. induction b as [|c b IH]; intros m Hm; simpl.
  - by destruct m.
  - destruct m as [|m]; simpl in Hm; [lia|]. simpl. f_equal. apply IH. lia.
Qed.

Lemma string_length_app (x y : string) :
  String.length (x ++ y) = (String.length x + String.length y)%nat.
Proof. induction x as [|c x IH]; simpl; [done|]. by rewrite IH. Qed.

Lemma substring_drop (a b : string) (m : nat) :
  (String.length b <= m)%nat -> substring (String.length a) m (a ++ b) = b.
Proof.
  intros Hm. induction a as [|c a IH]; simpl; [|exact IH].
  apply substring_all. exact Hm.
Qed.

Lemma replace_aux_none (old : string) (fuel : nat) :
  forall s, contains old s = false -> replace_aux old fuel s = s.
Proof.
  induction fuel as [|f IH]; intros s Hs; [done|].
  destruct s as [|c rest]; [done|]. cbn [replace_aux].
  cbn [contains] in Hs. apply orb_false_iff in Hs as [Hp Hr].
  rewrite Hp. f_equal. by apply IH.
Qed.

(** [("blocked:" + t).replace("blocked:", "")] gives back [t] when [t] has no
    further occurrence of the prefix. *)
Lemma py_replace_empty_app (old t : string) :
  old <> "" -> contains old t = false -> py_replace_empty old (old ++ t) = t.
Proof.
  intros Hne Ht. unfold py_replace_empty.
  destruct old as [|c o]; [done|]. simpl.
  destruct (ascii_dec c c) as [_|]; [|congruence].
  rewrite prefix_self_app, substring_drop by (rewrite string_length_app; lia).
  by apply replace_aux_none.
Qed.

Lemma r_get_plain (k : string) (s : St) :
  st_up s = true -> not_series (st_keys s !! k) = true ->
  r_get k s = (inr (option_map e_val (st_keys s !! k)), s).
Proof.
  intros Hup Hk. unfold r_get. rewrite (redis_up _ _ Hup). unfold kv_get.
  destruct (st_keys s !! k) as [[[| |] ttl]|]; simpl in *; try discriminate;
    by rewrite set_keys_same.
Qed.

Lemma blocked_loop_run (keys : list string) :
  forall acc s, st_up s = true ->
  Forall (fun k => not_series (st_keys s !! k) = true) keys ->
  blocked_loop keys acc s =
    (inr (acc ++ map (fun k => (py_replace_empty "blocked:" k, option_map e_val (st_keys s !! k)))
                      keys)%list, s).
Proof.
  induction keys as [|k rest IH]; intros acc s Hup Hall; simpl.
  - by rewrite app_nil_r.
  - inversion Hall as [|? ? Hk Hrest]; subst.
    unfold bind. rewrite (r_get_plain _ _ Hup Hk).
    rewrite (IH _ _ Hup Hrest). by rewrite <- app_assoc.
Qed.

Lemma catch_range_up {B} (agg : list float -> float) (bucket : Z) (k : string) (from to : Z)
  (f : list (Z * float) -> list B) (s : St) :
  st_up s = true ->
  catch_response (let* data := ts_range_agg agg bucket k from to in ret (f data)) (ret []) s =
    (inr (match st_keys s !! k with
          | Some (Entry (RSeries _ pts) _) =>
              f (map (fun g => (fst g, agg (snd g))) (group_buckets bucket (ts_window from to pts)))
          | _ => []
          end), s).
Proof.
  intros Hup. unfold catch_response, bind, ts_range_agg.
  rewrite (redis_up _ _ Hup). unfold ts_range_agg_cmd.
  destruct (st_keys s !! k) as [[[| |dp pts] ttl]|]; simpl; by rewrite set_keys_same.
Qed.

Lemma volume_loop_up prefix keys start_time current_time :
  forall values s, st_up s = true ->
  exists vs, volume_loop prefix keys start_time current_time values s = (inr vs, s).
Proof.
  induction keys as [|key rest IH]; intros values s Hup; simpl; [by eexists|].
  destruct (is_base_key key); [|apply IH; exact Hup].
  unfold bind at 1. unfold catch_response, bind, ts_range_agg.
  rewrite (redis_up _ _ Hup). unfold ts_range_agg_cmd.
  destruct (st_keys s !! key) as [[[| |dp pts] ttl]|]; simpl; rewrite set_keys_same;
    apply IH; exact Hup.
Qed.

Lemma scan_up (p : string) (s : St) :
  st_up s = true ->
  scan_iter p s = (inr (List.filter (fun k => String.prefix p k) (map fst (map_to_list (st_keys s)))), s).
Proof. intros Hup. unfold scan_iter. rewrite (redis_up _ _ Hup). simpl. by rewrite set_keys_same. Qed.

Lemma get_metrics_run (E : Env) (s : St) :
  st_up s = true ->
  (forall k, String.prefix "blocked:" k = true -> not_series (st_keys s !! k) = true) ->
  exists r,
    get_metrics E s = (inr r, s) /\
    match st_keys s !! "ddos:total_rps" with
    | Some (Entry (RSeries _ _) _) => True | _ => total_rps r = [] end /\
    match st_keys s !! "ddos:response_time" with
    | Some (Entry (RSeries _ _) _) => True | _ => response_times r = [] end /\
    match st_keys s !! "ddos:error_rate" with
    | Some (Entry (RSeries _ _) _) => True | _ => error_rates r = [] end /\
    blocked_ips r =
      map (fun k => (py_replace_empty "blocked:" k, option_map e_val (st_keys s !! k)))
        (List.filter (fun k => String.prefix "blocked:" k) (map fst (map_to_list (st_keys s)))).
Proof.
  intros Hup Hbl. unfold get_metrics. cbv zeta.
  unfold bind at 1. rewrite (catch_range_up _ _ _ _ _ _ _ Hup).
  unfold bind at 1. rewrite (catch_range_up _ _ _ _ _ _ _ Hup).
  unfold bind at 1. rewrite (catch_range_up _ _ _ _ _ _ _ Hup).
  unfold bind at 1. rewrite (scan_up _ _ Hup).
  unfold bind at 1.
  destruct (volume_loop_up "ddos:path:"
              (List.filter (fun k => String.prefix "ddos:path:" k) (map fst (map_to_list (st_keys s))))
              (now_ms E - 3600 * 1000) (now_ms E) [] s Hup) as [pv Hpv].
  rewrite Hpv.
  unfold bind at 1. rewrite (scan_up _ _ Hup).
  unfold bind at 1.
  destruct (volume_loop_up "ddos:ip:"
              (List.filter (fun k => String.prefix "ddos:ip:" k) (map fst (map_to_list (st_keys s))))
              (now_ms E - 3600 * 1000) (now_ms E) [] s Hup) as [iv Hiv].
  rewrite Hiv.
  unfold bind at 1. rewrite (scan_up _ _ Hup).
  unfold bind at 1. rewrite blocked_loop_run; [| exact Hup |].
  - eexists. split; [reflexivity|]. simpl.
    split; [by destruct (st_keys s !! "ddos:total_rps") as [[[] ?]|]|].
    split; [by destruct (st_keys s !! "ddos:response_time") as [[[] ?]|]|].
    split; [by destruct (st_keys s !! "ddos:error_rate") as [[[] ?]|]|].
    done.
  - apply Forall_forall. intros k Hk. apply list_elem_of_In, filter_In in Hk.
    apply Hbl. apply Hk.
Qed.

Lemma blocked_listing_in (m : gmap string entry) (t : string) (e : entry) :
  contains "blocked:" t = false -> m !! ("blocked:" ++ t) = Some e ->
  In (t, Some (e_val e))
    (map (fun k => (py_replace_empty "blocked:" k, option_map e_val (m !! k)))
       (List.filter (fun k => String.prefix "blocked:" k) (map fst (map_to_list m)))).
Proof.
  intros Ht Hk. apply in_map_iff. exists ("blocked:" ++ t). split.
  - rewrite py_replace_empty_app by (done || discriminate). by rewrite Hk.
  - apply filter_In. split; [|apply prefix_self_app].
    apply in_map_iff. exists ("blocked:" ++ t, e). split; [done|].
    apply list_elem_of_In, elem_of_map_to_list. exact Hk.
Qed.

Lemma blocked_listing_from (m : gmap string entry) (name : string) (reason : option rval) :
  In (name, reason)
    (map (fun k => (py_replace_empty "blocked:" k, option_map e_val (m !! k)))
       (List.filter (fun k => String.prefix "blocked:" k) (map fst (map_to_list m)))) ->
  exists k e, String.prefix "blocked:" k = true /\ m !! k = Some e /\
    name = py_replace_empty "blocked:" k /\ reason = Some (e_val e).
Proof.
  intros Hin. apply in_map_iff in Hin as [k [Heq Hk]]. injection Heq as <- <-.
  apply filter_In in Hk as [Hk Hp]. apply in_map_iff in Hk as [[k' e] [Hk' He]].
  simpl in Hk'. subst k'. apply list_elem_of_In, elem_of_map_to_list in He.
  exists k, e. rewrite He. done.
Qed.

(** On a reachable store whose [blocked:*] entries are plain values, the
    dashboard answers. A chart whose series is missing (or is not a series)
    is an empty list instead of an error. The blocked list has one entry
    per [blocked:*] key, with the key's prefix removed and the stored
    reason: every client blocked under [blocked:ip] (with no further
    [blocked:] inside [ip]) appears as [ip] with its reason, and nothing
    else appears. *)
Theorem get_metrics_reachable (E : Env) (s : St) :
  st_up s = true ->
  (forall k, String.prefix "blocked:" k = true -> not_series (st_keys s !! k) = true) ->
  exists r,
    get_metrics E s = (inr r, s) /\
    match st_keys s !! "ddos:total_rps" with
    | Some (Entry (RSeries _ _) _) => True | _ => total_rps r = [] end /\
    match st_keys s !! "ddos:response_time" with
    | Some (Entry (RSeries _ _) _) => True | _ => response_times r = [] end /\
    match st_keys s !! "ddos:error_rate" with
    | Some (Entry (RSeries _ _) _) => True | _ => error_rates r = [] end /\
    (forall t e, contains "blocked:" t = false -> st_keys s !! ("blocked:" ++ t) = Some e ->
       In (t, Some (e_val e)) (blocked_ips r)) /\
    (forall name reason, In (name, reason) (blocked_ips r) ->
       exists k e, String.prefix "blocked:" k = true /\ st_keys s !! k = Some e /\
         name = py_replace_empty "blocked:" k /\ reason = Some (e_val e)).
Proof.
  intros Hup Hbl.
  destruct (get_metrics_run E s Hup Hbl) as [r (Hrun & H1 & H2 & H3 & Hb)].
  exists r. split; [exact Hrun|]. split; [exact H1|]. split; [exact H2|].
  split; [exact H3|]. rewrite Hb. split.
  - intros t e. apply blocked_listing_in.
  - intros name reason. apply blocked_listing_from.
Qed.

Lemma get_metrics_reachable_witness :
  exists r, get_metrics env0 st_blocked = (inr r, st_blocked) /\
    In ("203.0.113.7", Some (RText "auto_anomaly")) (blocked_ips r).
Proof.
  destruct (get_metrics_reachable env0 st_blocked) as [r (Hrun & _ & _ & _ & Hin & _)].
  - reflexivity.
  - intros k Hk. unfold st_blocked. simpl.
    destruct (decide (k = "blocked:203.0.113.7")) as [->|Hne].
    + reflexivity.
    + rewrite lookup_singleton_ne by congruence. reflexivity.
  - exists r. split; [exact Hrun|].
    apply (Hin "203.0.113.7" (Entry (RText "auto_anomaly") (Some 3600))); reflexivity.
Defined.

(** *** A manual block on the dashboard *)

(** After a manual block that reports success, the dashboard (on a store
    whose other [blocked:*] entries are plain values) answers and lists the
    target with the reason given, provided the target contains no
    [blocked:] of its own. *)
Theorem add_mitigation_block_listed (E : Env) (action : MitigationAction) (s s1 : St) :
  action_type action = "block" ->
  contains "blocked:" (target action) = false ->
  (forall k, String.prefix "blocked:" k = true -> not_series (st_keys s !! k) = true) ->
  add_mitigation E action s = (inr true, s1) ->
  exists r, get_metrics E s1 = (inr r, s1) /\
    In (target action, Some (RText (reason action))) (blocked_ips r).
Proof.
  intros Hty Ht Hbl Hrun.
  unfold add_mitigation in Hrun. rewrite Hty in Hrun. simpl in Hrun.
  unfold bind, add_to_cloudflare_blocklist, ret, log_call in Hrun. simpl in Hrun.
  destruct (cf_block_ok E (target action) (duration action)); [|discriminate].
  unfold r_set, redis, kv_set in Hrun. simpl in Hrun.
  destruct (st_up s) eqn:Hup; [|discriminate].
  destruct (duration action <=? 0); simpl in Hrun; [discriminate|].
  injection Hrun as <-.
  set (m1 := <["blocked:" ++ target action := Entry (RText (reason action)) (Some (duration action))]>
               (st_keys s)).
  assert (Hk : m1 !! ("blocked:" ++ target action) =
               Some (Entry (RText (reason action)) (Some (duration action))))
    by apply lookup_insert_eq.
  assert (Hbl1 : forall k, String.prefix "blocked:" k = true -> not_series (m1 !! k) = true).
  { intros k Hp. destruct (decide (k = "blocked:" ++ target action)) as [->|Hne].
    - by rewrite Hk.
    - subst m1. rewrite lookup_insert_ne by congruence. by apply Hbl. }
  destruct (get_metrics_run E (mkSt m1 true (st_calls s ++ [FirewallBlock (target action) (duration action)])%list)
              eq_refl Hbl1) as [r (Hr & _ & _ & _ & Hb)].
  exists r. split; [exact Hr|]. rewrite Hb.
  exact (blocked_listing_in m1 _ _ Ht Hk).
Qed.

Lemma add_mitigation_block_listed_witness :
  exists r, get_metrics env0 (snd (add_mitigation env0 block0 st_empty)) =
              (inr r, snd (add_mitigation env0 block0 st_empty)) /\
    In ("198.51.100.9", Some (RText "manual")) (blocked_ips r).
Proof.
  apply (add_mitigation_block_listed env0 block0 st_empty).
  - reflexivity.
  - reflexivity.
  - intros k _. reflexivity.
  - reflexivity.
Defined.

(** *** The top-ten lists of the dashboard *)

(** Comparisons of doubles that are not NaN: [<=?] is transitive and total.
    The comparison of two spec floats is the lexicographic comparison of
    their keys. *)
Lemma SFcompare_key (a b : spec_float) :
  a <> S754_nan -> b <> S754_nan -> SFcompare a b = Some (lexcmp (sf_key a) (sf_key b)).
Proof.
  intros Ha Hb.
  destruct a as [sa|sa| |sa ma ea]; [| |done|]; destruct b as [sb|sb| |sb mb eb];
    try done; try destruct sa; try destruct sb; simpl; try reflexivity.
  rewrite !Z.compare_opp.
  destruct (Z.compare_spec ea eb) as [<-|Hl|Hl].
  - rewrite Z.compare_refl. reflexivity.
  - assert (Hg : (eb ?= ea) = Gt) by (apply Z.compare_gt_iff; lia).
    rewrite Hg. reflexivity.
  - assert (Hg : (eb ?= ea) = Lt) by (apply Z.compare_lt_iff; lia).
    rewrite Hg. reflexivity.
Qed.

Lemma lexcmp_le (a1 a2 a3 b1 b2 b3 : Z) :
  lexcmp (a1, a2, a3) (b1, b2, b3) <> Gt <->
  a1 < b1 \/ (a1 = b1 /\ (a2 < b2 \/ (a2 = b2 /\ a3 <= b3))).
Proof.
  simpl.
  destruct (Z.compare_spec a1 b1) as [H1|H1|H1];
    try (destruct (Z.compare_spec a2 b2) as [H2|H2|H2]);
    try (destruct (Z.compare_spec a3 b3) as [H3|H3|H3]);
    split; intros H; try lia; try discriminate;
    try (intros H'; discriminate); try (exfalso; lia); try (exfalso; apply H; reflexivity).
Qed.

Lemma not_nan_SF (x : float) : PrimFloat.is_nan x = false -> Prim2SF x <> S754_nan.
Proof.
  unfold PrimFloat.is_nan. rewrite FloatAxioms.eqb_spec. intros H Hx.
  rewrite Hx in H. discriminate.
Qed.

Lemma fleb_key (x y : float) :
  PrimFloat.is_nan x = false -> PrimFloat.is_nan y = false ->
  (x <=? y)%float = true <-> lexcmp (sf_key (Prim2SF x)) (sf_key (Prim2SF y)) <> Gt.
Proof.
  intros Hx Hy. rewrite FloatAxioms.leb_spec. unfold SFleb.
  rewrite SFcompare_key by (apply not_nan_SF; assumption).
  destruct (lexcmp _ _); split; intros H; done.
Qed.

Lemma fleb_trans (x y z : float) :
  PrimFloat.is_nan x = false -> PrimFloat.is_nan y = false -> PrimFloat.is_nan z = false ->
  (x <=? y)%float = true -> (y <=? z)%float = true -> (x <=? z)%float = true.
Proof.
  intros Hx Hy Hz Hxy Hyz.
  apply (fleb_key x y Hx Hy) in Hxy. apply (fleb_key y z Hy Hz) in Hyz.
  apply (fleb_key x z Hx Hz).
  destruct (sf_key (Prim2SF x)) as [[a1 a2] a3], (sf_key (Prim2SF y)) as [[b1 b2] b3],
    (sf_key (Prim2SF z)) as [[c1 c2] c3].
  apply lexcmp_le in Hxy, Hyz. apply lexcmp_le. lia.
Qed.

Lemma fleb_total (x y : float) :
  PrimFloat.is_nan x = false -> PrimFloat.is_nan y = false ->
  (x <=? y)%float = false -> (y <=? x)%float = true.
Proof.
  intros Hx Hy Hxy. apply (fleb_key y x Hy Hx).
  assert (Hn : ~ (lexcmp (sf_key (Prim2SF x)) (sf_key (Prim2SF y)) <> Gt)).
  { intros H. apply (fleb_key x y Hx Hy) in H. congruence. }
  destruct (sf_key (Prim2SF x)) as [[a1 a2] a3], (sf_key (Prim2SF y)) as [[b1 b2] b3].
  rewrite lexcmp_le in Hn. apply lexcmp_le. lia.
Qed.

Section TopTen.
Context {A : Type} (key : A -> float).

Lemma insert_desc_perm (x : A) (l : list A) : Permutation (x :: l) (insert_desc key x l).
Proof.
  induction l as [|y rest IH]; simpl; [done|].
  destruct (key x <=? key y)%float; [|done].
  etransitivity; [apply perm_swap|]. by apply perm_skip.
Qed.

Lemma Forall_perm (P : A -> Prop) (l l' : list A) :
  Permutation l l' -> Forall P l -> Forall P l'.
Proof.
  intros Hp Hl. apply List.Forall_forall. intros z Hz.
  apply (proj1 (List.Forall_forall _ _) Hl). apply (Permutation_in _ (Permutation_sym Hp)).
  exact Hz.
Qed.

Lemma insert_desc_sorted (x : A) (l : list A) :
  PrimFloat.is_nan (key x) = false ->
  Forall (fun y => PrimFloat.is_nan (key y) = false) l ->
  StronglySorted (fun a b => (key b <=? key a)%float = true) l ->
  StronglySorted (fun a b => (key b <=? key a)%float = true) (insert_desc key x l).
Proof.
  induction l as [|y rest IH]; intros Hx Hn Hs; simpl.
  - repeat constructor.
  - inversion Hs as [|? ? Hrest Hall]; subst.
    inversion Hn as [|? ? Hy Hnr]; subst.
    destruct (key x <=? key y)%float eqn:Hxy.
    + constructor; [by apply IH|].
      apply List.Forall_forall. intros z Hz.
      apply (Permutation_in _ (Permutation_sym (insert_desc_perm x rest))) in Hz.
      destruct Hz as [<-|Hz]; [exact Hxy|].
      exact (proj1 (List.Forall_forall _ _) Hall z Hz).
    + pose proof (fleb_total _ _ Hx Hy Hxy) as Hyx.
      constructor; [exact Hs|]. constructor; [exact Hyx|].
      apply List.Forall_forall. intros z Hz.
      pose proof (proj1 (List.Forall_forall _ _) Hall z Hz) as Hzy.
      pose proof (proj1 (List.Forall_forall _ _) Hnr z Hz) as Hzn.
      exact (fleb_trans _ _ _ Hzn Hy Hx Hzy Hyx).
Qed.

Lemma sort_desc_spec (l : list A) :
  Forall (fun y => PrimFloat.is_nan (key y) = false) l ->
  Permutation l (sort_desc key l) /\
  StronglySorted (fun a b => (key b <=? key a)%float = true) (sort_desc key l).
Proof.
  unfold sort_desc. intros Hl.
  assert (H : forall acc,
            Forall (fun y => PrimFloat.is_nan (key y) = false) acc ->
            StronglySorted (fun a b => (key b <=? key a)%float = true) acc ->
            Permutation (acc ++ l) (fold_left (fun acc x => insert_desc key x acc) l acc) /\
            StronglySorted (fun a b => (key b <=? key a)%float = true)
              (fold_left (fun acc x => insert_desc key x acc) l acc)).
  { induction l as [|x rest IH]; intros acc Hn Hacc; simpl.
    - by rewrite app_nil_r.
    - inversion Hl as [|? ? Hx Hrest]; subst.
      assert (Hn' : Forall (fun y => PrimFloat.is_nan (key y) = false) (insert_desc key x acc))
        by (apply (Forall_perm _ (x :: acc)); [apply insert_desc_perm|by constructor]).
      destruct (IH Hrest (insert_desc key x acc) Hn' (insert_desc_sorted x acc Hx Hn Hacc))
        as [Hp Hs].
      split; [|exact Hs].
      etransitivity; [|exact Hp].
      etransitivity; [apply Permutation_sym, Permutation_middle|].
      exact (Permutation_app_tail rest (insert_desc_perm x acc)). }
  apply (H []); constructor.
Qed.

Lemma StronglySorted_app_rel (Rel : A -> A -> Prop) (l1 l2 : list A) :
  StronglySorted Rel (l1 ++ l2) -> forall x y, In x l1 -> In y l2 -> Rel x y.
Proof.
  induction l1 as [|z l1 IH]; simpl; intros Hs x y Hx Hy; [done|].
  inversion Hs as [|? ? Hrest Hall]; subst.
  destruct Hx as [<-|Hx].
  - exact (proj1 (List.Forall_forall _ _) Hall y (in_or_app _ _ _ (or_intror Hy))).
  - exact (IH Hrest x y Hx Hy).
Qed.

Lemma StronglySorted_app_l (Rel : A -> A -> Prop) (l1 l2 : list A) :
  StronglySorted Rel (l1 ++ l2) -> StronglySorted Rel l1.
Proof.
  induction l1 as [|z l1 IH]; simpl; intros Hs; [constructor|].
  inversion Hs as [|? ? Hrest Hall]; subst. constructor; [by apply IH|].
  apply List.Forall_forall. intros y Hy.
  exact (proj1 (List.Forall_forall _ _) Hall y (in_or_app _ _ _ (or_introl Hy))).
Qed.

End TopTen.

(** The top paths and top clients of the dashboard: of values that are not
    NaN (request counts), the ten entries (or all of them, when there are
    fewer) with the largest values, in non-increasing order. Together with
    the entries left out they are a rearrangement of the input, and no
    entry left out has a larger value than an entry shown. *)
Theorem top_ten_selection (l : list (string * float)) :
  Forall (fun p => PrimFloat.is_nan (snd p) = false) l ->
  let sorted := sort_desc snd l in
  let top := firstn 10 sorted in
  length top = Nat.min 10 (length l) /\
  StronglySorted (fun a b => (snd b <=? snd a)%float = true) top /\
  Permutation l (top ++ skipn 10 sorted) /\
  (forall x y, In x top -> In y (skipn 10 sorted) -> (snd y <=? snd x)%float = true).
Proof.
  intros Hn sorted top. subst sorted top.
  destruct (sort_desc_spec snd l Hn) as [Hp Hs].
  rewrite firstn_skipn.
  split; [|split; [|split]].
  - rewrite length_firstn. by rewrite <- (Permutation_length Hp).
  - rewrite <- (firstn_skipn 10 (sort_desc snd l)) in Hs.
    exact (StronglySorted_app_l _ _ _ Hs).
  - exact Hp.
  - intros x y Hx Hy.
    rewrite <- (firstn_skipn 10 (sort_desc snd l)) in Hs.
    exact (StronglySorted_app_rel _ _ _ Hs x y Hx Hy).
Qed.

Lemma top_ten_selection_witness :
  firstn 10 (sort_desc snd [("/a", 3%float); ("/b", 7%float); ("/c", 5%float)]) =
    [("/b", 7%float); ("/c", 5%float); ("/a", 3%float)] /\
  StronglySorted (fun a b => (snd b <=? snd a)%float = true)
    (firstn 10 (sort_desc snd [("/a", 3%float); ("/b", 7%float); ("/c", 5%float)])).
Proof.
  split; [vm_compute; reflexivity|].
  apply (top_ten_selection [("/a", 3%float); ("/b", 7%float); ("/c", 5%float)]).
  repeat constructor.
Defined.

(** *** The request volume of a path or client *)

Lemma bucket_of_mono (b t t' : Z) : 0 < b -> t <= t' -> bucket_of b t <= bucket_of b t'.
Proof.
  intros Hb Ht. unfold bucket_of.
  rewrite (Z.mod_eq t b), (Z.mod_eq t' b) by lia.
  assert (H : t / b <= t' / b) by (apply Z.div_le_mono; lia). nia.
Qed.

Lemma filter_all_false {B} (f : B -> bool) (l : list B) :
  (forall q, In q l -> f q = false) -> List.filter f l = [].
Proof.
  induction l as [|q l IH]; intros H; simpl; [done|].
  rewrite (H q (or_introl eq_refl)). apply IH. intros q' Hq'. apply H. by right.
Qed.

Lemma group_buckets_cons (b t : Z) (v : float) (rest : list (Z * float)) :
  group_buckets b ((t, v) :: rest) =
    match group_buckets b rest with
    | (bt, vs) :: groups =>
        if bt =? bucket_of b t then (bt, v :: vs) :: groups
        else (bucket_of b t, [v]) :: (bt, vs) :: groups
    | [] => [(bucket_of b t, [v])]
    end.
Proof. reflexivity. Qed.

(** On ordered samples, the first aggregation bucket holds exactly the
    samples of the bucket of the earliest one. *)
Lemma group_buckets_head (b : Z) (rest : list (Z * float)) :
  0 < b -> forall t0 v0, ts_sorted ((t0, v0) :: rest) = true ->
  exists gs, group_buckets b ((t0, v0) :: rest) =
    (bucket_of b t0,
     map snd (List.filter (fun p => bucket_of b (fst p) =? bucket_of b t0) ((t0, v0) :: rest)))
    :: gs.
Proof.
  intros Hb. induction rest as [|[t1 v1] rest' IH]; intros t0 v0 Hs.
  - exists []. simpl. by rewrite Z.eqb_refl.
  - simpl in Hs. apply andb_prop in Hs as [Hall Hs'].
    apply andb_prop in Hall as [H01 Hall]. apply Z.ltb_lt in H01.
    destruct (IH t1 v1 Hs') as [gs Hg].
    rewrite group_buckets_cons, Hg.
    destruct (bucket_of b t1 =? bucket_of b t0) eqn:Heq.
    + apply Z.eqb_eq in Heq. exists gs. rewrite Heq.
      cbn [List.filter fst]. rewrite Z.eqb_refl. reflexivity.
    + exists ((bucket_of b t1,
               map snd (List.filter (fun p => bucket_of b (fst p) =? bucket_of b t1)
                          ((t1, v1) :: rest'))) :: gs).
      replace (List.filter (fun p => bucket_of b (fst p) =? bucket_of b t0)
                 ((t0, v0) :: (t1, v1) :: rest')) with [(t0, v0)]; [reflexivity|].
      cbn [List.filter fst]. rewrite Z.eqb_refl, Heq.
      apply Z.eqb_neq in Heq.
      assert (H1 : bucket_of b t0 < bucket_of b t1)
        by (pose proof (bucket_of_mono b t0 t1 Hb ltac:(lia)); lia).
      rewrite filter_all_false; [reflexivity|].
      intros [tq vq] Hq. simpl. apply Z.eqb_neq.
      apply andb_prop in Hs' as [Hall' _].
      apply (proj1 (List.forallb_forall _ _) Hall') in Hq. apply Z.ltb_lt in Hq. simpl in Hq.
      pose proof (bucket_of_mono b t1 tq Hb ltac:(lia)). lia.
Qed.

(** The requests value of a path or client on the dashboard is not the
    volume of the last hour: it is the sum of the first one-hour bucket
    returned, i.e. of the samples of the hour window that fall in the same
    clock hour as the earliest of them. Samples after the next full hour
    are left out, and a key with no sample in the window is left out of the
    list. *)
Theorem volume_loop_first_hour (prefix key : string) (start_time current_time : Z)
  (s : St) (dp : dup_policy) (pts : list (Z * float)) (ttl : option Z) :
  st_up s = true -> is_base_key key = true ->
  st_keys s !! key = Some (Entry (RSeries dp pts) ttl) -> ts_sorted pts = true ->
  volume_loop prefix [key] start_time current_time [] s =
    (inr (match ts_window start_time current_time pts with
          | [] => []
          | (t0, _) :: _ =>
              [(py_replace_empty prefix key,
                agg_sum (map snd (List.filter
                  (fun p => bucket_of 3600000 (fst p) =? bucket_of 3600000 t0)
                  (ts_window start_time current_time pts))))]
          end), s).
Proof.
  intros Hup Hbase Hk Hs. cbn [volume_loop]. rewrite Hbase.
  unfold bind, catch_response, ts_range_agg. rewrite (redis_up _ _ Hup).
  unfold ts_range_agg_cmd. rewrite Hk. simpl fst. simpl snd. rewrite set_keys_same.
  unfold ret.
  assert (Hw : ts_sorted (ts_window start_time current_time pts) = true)
    by (unfold ts_window; apply ts_sorted_filter; exact Hs).
  destruct (ts_window start_time current_time pts) as [|[t0 v0] rest] eqn:Hwin.
  - reflexivity.
  - destruct (group_buckets_head 3600000 rest ltac:(lia) t0 v0 Hw) as [gs Hg].
    rewrite Hg. reflexivity.
Qed.

Lemma volume_loop_first_hour_witness :
  volume_loop "ddos:path:" ["ddos:path:/login"] 100000 3700000 [] st_two_hours =
    (inr [("/login", 5%float)], st_two_hours).
Proof.
  rewrite (volume_loop_first_hour "ddos:path:" "ddos:path:/login" 100000 3700000 st_two_hours
             Sum [(3599000, 5%float); (3601000, 7%float)] None); try reflexivity.
Defined.
